(** * Deposit detection and withdrawal settlement: a shallow embedding

    The definitions below transcribe the TypeScript sources of the
    ecosystem extension:

    - [withdraw/index.post.ts]               (modules [JsNumber], [Withdraw])
    - [deposit/util/monitor/UTXODeposits.ts] (module [Monitor])
    - [utils/transactions.ts]                (module [TxCache])
    - [utils/utxo/btc-node.ts]               (module [BtcNode])

    Asynchronous calls to collaborators (database, node, explorer, Redis,
    event bus) are modelled by explicit state passing; the answers of the
    outside world are inputs of the functions.  The definitions come first;
    the properties follow in the modules [JsNumberFacts], [WithdrawFacts],
    [MonitorFacts], [TxCacheFacts] and [BtcNodeFacts]. *)

From Stdlib Require Import ZArith QArith Qminmax Qround List Bool Ascii String Lia.
From stdpp Require Import base gmap strings list.

Local Open Scope string_scope.
Local Open Scope Z_scope.

(** ** JavaScript numbers as printed by [Number.prototype.toString] *)

Module JsNumber.

(** A finite non-negative Number is represented by the decimal data that
    ECMAScript's Number::toString works with: the digits of the shortest
    round-tripping significand [s] (most significant first, [k] of them)
    and the exponent [n], so that the value is [s * 10^(n-k)].  The empty
    digit list stands for zero. *)
Record JsNum : Type := mkNum { sig : list nat; pt : Z }.

Definition wf (x : JsNum) : Prop :=
  match sig x with
  | [] => True
  | d :: _ =>
      d <> 0%nat /\ List.last (sig x) 1%nat <> 0%nat /\
      Forall (fun c => (c < 10)%nat) (sig x) /\ (List.length (sig x) <= 17)%nat
  end.

Definition sig_value (ds : list nat) : Z :=
  fold_left (fun acc d => 10 * acc + Z.of_nat d) ds 0.

(** Exact value. *)
Definition to_Q (x : JsNum) : Q :=
  let k := Z.of_nat (List.length (sig x)) in
  let e := pt x - k in
  if 0 <=? e then inject_Z (sig_value (sig x) * 10 ^ e)
  else Qmake (sig_value (sig x)) (Z.to_pos (10 ^ (- e))).

(** [Number.isInteger]: the denominator divides the numerator. *)
Definition isInteger (x : JsNum) : bool :=
  Qnum (to_Q x) mod Zpos (Qden (to_Q x)) =? 0.

Definition digit_char (d : nat) : ascii := ascii_of_nat (48 + d).

Fixpoint digits_string (ds : list nat) : string :=
  match ds with
  | [] => EmptyString
  | d :: r => String (digit_char d) (digits_string r)
  end.

Fixpoint zeros (n : nat) : string :=
  match n with O => EmptyString | S m => String "0" (zeros m) end.

Fixpoint nat_digits_fuel (fuel n : nat) (acc : list nat) : list nat :=
  match fuel with
  | O => acc
  | S f =>
      if (n <? 10)%nat then n :: acc
      else nat_digits_fuel f (n / 10)%nat ((n mod 10)%nat :: acc)
  end.

(** Decimal digits of a natural number, most significant first. *)
Definition nat_digits (n : nat) : list nat := nat_digits_fuel (S n) n [].

(** Number::toString(x, 10) for finite non-negative [x]. *)
Definition toString (x : JsNum) : string :=
  match sig x with
  | [] => "0"
  | d :: rest =>
      let ds := sig x in
      let k := Z.of_nat (List.length ds) in
      let n := pt x in
      if (k <=? n) && (n <=? 21) then
        digits_string ds ++ zeros (Z.to_nat (n - k))
      else if (0 <? n) && (n <=? 21) then
        digits_string (firstn (Z.to_nat n) ds) ++ "." ++
        digits_string (skipn (Z.to_nat n) ds)
      else if (-6 <? n) && (n <=? 0) then
        "0." ++ zeros (Z.to_nat (- n)) ++ digits_string ds
      else
        let e := n - 1 in
        let sgn := if e <? 0 then "-" else "+" in
        let ex := digits_string (nat_digits (Z.abs_nat e)) in
        match rest with
        | [] => digits_string [d] ++ "e" ++ sgn ++ ex
        | _ => digits_string [d] ++ "." ++ digits_string rest ++ "e" ++ sgn ++ ex
        end
  end.

(** [String.prototype.includes]. *)
Definition includes (s sub : string) : bool :=
  match String.index 0 sub s with Some _ => true | None => false end.

Fixpoint split_fuel (fuel : nat) (s sep : string) : list string :=
  match fuel with
  | O => [s]
  | S f =>
      match String.index 0 sep s with
      | None => [s]
      | Some i =>
          let after := (i + String.length sep)%nat in
          String.substring 0 i s ::
          split_fuel f (String.substring after (String.length s - after) s) sep
      end
  end.

(** [String.prototype.split] with a non-empty separator. *)
Definition split (s sep : string) : list string :=
  split_fuel (S (String.length s)) s sep.

Definition digit_of_char (c : ascii) : option Z :=
  let v := nat_of_ascii c in
  if (48 <=? v)%nat && (v <=? 57)%nat then Some (Z.of_nat (v - 48)) else None.

Fixpoint parse_digits (s : string) (acc : option Z) : option Z :=
  match s with
  | EmptyString => acc
  | String c r =>
      match digit_of_char c with
      | Some d => parse_digits r (Some (10 * (default 0 acc) + d))
      | None => acc
      end
  end.

(** [parseInt(s, 10)] on an unsigned string; [None] is NaN. *)
Definition parseInt (s : string) : option Z := parse_digits s None.

(** [countDecimals] of withdraw/index.post.ts; [None] is NaN. *)
Definition countDecimals (value : JsNum) : option Z :=
  if isInteger value then Some 0
  else
    let str := toString value in
    if includes str "e-" then
      match split str "e-" with
      | _ :: exponent :: _ => parseInt exponent
      | _ => None
      end
    else
      let parts := split str "." in
      match parts with
      | _ :: p1 :: _ => Some (Z.of_nat (String.length p1))  (* length || 0 *)
      | _ => Some 0
      end.

(** The number of digits after the decimal point in the exact decimal
    expansion of a well-formed number; follows the words of the claim, not
    the code. *)
Definition decimal_places (x : JsNum) : Z :=
  match sig x with
  | [] => 0
  | _ => Z.max 0 (Z.of_nat (List.length (sig x)) - pt x)
  end.

(** A string in which the character [c] does not occur. *)
Fixpoint lacks (c : ascii) (s : string) : Prop :=
  match s with
  | EmptyString => True
  | String a r => a <> c /\ lacks c r
  end.

(** A character that is not a decimal digit. *)
Definition nonDigit (c : ascii) : bool :=
  (nat_of_ascii c <? 48)%nat || (57 <? nat_of_ascii c)%nat.

End JsNumber.

(** ** Withdrawal handler: withdraw/index.post.ts *)

Module Withdraw.
Import JsNumber.

(** Numbers other than the requested amount (balances, fees) are exact
    rationals; the requested amount is a [JsNum] because [countDecimals]
    inspects its printed form. *)
Definition Qltb (x y : Q) : bool := negb (Qle_bool y x).

(** [Math.round]. *)
Definition mathRound (x : Q) : Z := Qfloor (x + (1 # 2))%Q.

(** Row of the [wallet] table.  [address] is the parsed address map (what
    [parseAddresses(wallet.address)] yields): chain name to address, in key
    order. *)
Record wallet : Type := mkWallet {
  id : string;
  userId : string;
  currency : string;
  type : string;
  balance : Q;
  inOrder : Q;
  address : list (string * string)
}.

(** [token.fee] after [JSON.parse]: the optional [percentage] and [min]. *)
Record tokenFee : Type := mkTokenFee { percentage : option Q; min : option Q }.

Record token : Type := mkToken {
  tokenCurrency : string;
  decimals : option Z;
  precision : option Z;
  fee : option tokenFee
}.

Record transaction : Type := mkTransaction {
  txId : nat;
  txUserId : string;
  txWalletId : string;
  txCurrency : string;
  txChain : string;
  txAmount : Q;
  txToAddress : string;
  txFee : Q;
  txStatus : string
}.

(** The durable state the handler reads and writes. *)
Record State : Type := mkState {
  wallets : list wallet;
  transactions : list transaction;
  queue : list nat
}.

Inductive error : Type :=
| Unauthorized
| ChainRequired
| InvalidChain
| AddressInvalid (msg : string)
| WalletNotFound
| TokenNotFound
| TooManyDecimals (cur chain : string) (maxPrecision : Z) (actual : option Z)
| TronUnavailable
| WalletDataNotFound
| MoneroUnavailable
| InsufficientFundsError
| CollaboratorError (msg : string).

Definition show_Z (z : Z) : string :=
  String.append (if z <? 0 then "-" else "") (digits_string (nat_digits (Z.abs_nat z))).

(** [error.message]. *)
Definition message (e : error) : string :=
  match e with
  | Unauthorized => "Unauthorized"
  | ChainRequired => "Chain parameter is required"
  | InvalidChain => "Invalid or missing chain parameter"
  | AddressInvalid msg => msg
  | WalletNotFound => "User wallet not found"
  | TokenNotFound => "Token not found"
  | TooManyDecimals cur chain mx actual =>
      ("Amount has too many decimal places for " ++ cur ++ " on " ++ chain ++
       ". Max allowed is " ++ show_Z mx ++
       " decimal places. Your amount has " ++
       match actual with Some a => show_Z a | None => "NaN" end ++
       " decimal places.")%string
  | TronUnavailable => "Tron service not available"
  | WalletDataNotFound => "Wallet data not found"
  | MoneroUnavailable => "Monero service not available"
  | InsufficientFundsError => "Insufficient funds"
  | CollaboratorError msg => msg
  end.

Inductive result (A : Type) : Type :=
| Ok (a : A)
| Throw (e : error).
Arguments Ok {A} a.
Arguments Throw {A} e.

Inductive response : Type :=
| WithdrawalSubmitted (tx : transaction) (newBalance : Q) (method cur : string)
| TransferDone (payload : string).

Record tronService : Type := mkTron {
  isAddressActivated : string -> bool;
  estimateTransactionFee : string -> string -> Z -> Q
}.

(** Collaborators whose code lives outside this file of the repository;
    their answers are inputs. *)
Record env : Type := mkEnv {
  validateAddress : string -> string -> option string;   (* [Some msg]: throws *)
  getEcosystemToken : string -> string -> option token;
  getTronService : option tronService;
  getWalletData : string -> string -> bool;
  getMoneroService : option Q;                            (* estimateMoneroFee *)
  processInternalTransfer :
    string -> string -> string -> string -> JsNum -> State -> result response * State
}.

Definition calculateWithdrawalFee
    (amount currencyWithdrawalFee minimumWithdrawalFee : Q) : Q :=
  let calculatedFee := ((amount * currencyWithdrawalFee) / 100)%Q in
  Qmax calculatedFee minimumWithdrawalFee.

(** [findWalletByAddress]: the first ECO wallet one of whose chain entries
    carries [toAddress]. *)
Fixpoint findWalletByAddress (ws : list wallet) (toAddress : string) : option wallet :=
  match ws with
  | [] => None
  | w :: rest =>
      if String.eqb (type w) "ECO" &&
         existsb (fun ca => String.eqb (snd ca) toAddress) (address w)
      then Some w
      else findWalletByAddress rest toAddress
  end.

(** [models.wallet.findOne({ where: { userId, currency, type: "ECO" } })]. *)
Definition findUserWallet (ws : list wallet) (uid cur : string) : option wallet :=
  List.find (fun w => String.eqb (userId w) uid && String.eqb (currency w) cur &&
                      String.eqb (type w) "ECO") ws.

(** Modelled from the spec: [decrementWalletBalance] of utils/wallet, which
    is not among the sources ("decrement ledger balance transactionally"):
    the balance of the wallet row is lowered by the amount. *)
Definition decrementWalletBalance (w : wallet) (chain : string) (amount : Q)
    (st : State) : State :=
  mkState
    (List.map (fun x =>
       if String.eqb (id x) (id w)
       then mkWallet (id x) (userId x) (currency x) (type x)
                     (balance x - amount)%Q (inOrder x) (address x)
       else x) (wallets st))
    (transactions st) (queue st).

(** Modelled from the spec: [createPendingTransaction] of utils/wallet, which
    is not among the sources ("create a PENDING PersistedTransaction"). *)
Definition createPendingTransaction (uid wid cur chain : string) (amount : Q)
    (toAddress : string) (totalFee : Q) (st : State) : transaction * State :=
  let tx := mkTransaction (List.length (transactions st)) uid wid cur chain
                          amount toAddress totalFee "PENDING" in
  (tx, mkState (wallets st) (transactions st ++ [tx]) (queue st)).

(** Modelled from the spec: [WithdrawalQueue.addTransaction] of
    utils/withdrawalQueue, which is not among the sources
    ("submit(transactionId)"). *)
Definition addTransaction (txid : nat) (st : State) : State :=
  mkState (wallets st) (transactions st) (queue st ++ [txid]).

Definition isUtxoChain (chain : string) : bool :=
  existsb (String.eqb chain) ["BTC"; "LTC"; "DOGE"; "DASH"].

(** The chain-specific part of the fee: [(activationFee, estimatedFee)]. *)
Definition chainFees (e : env) (userWallet : wallet) (chain toAddress : string)
    (amount : Q) : result (Q * Q) :=
  if String.eqb chain "TRON" then
    match getTronService e with
    | None => Throw TronUnavailable
    | Some tronService =>
        let isActivated := isAddressActivated tronService toAddress in
        let activationFee : Q := if isActivated then 0%Q else 1%Q in
        if negb (getWalletData e (id userWallet) chain) then Throw WalletDataNotFound
        else
          match List.find (fun ca => String.eqb (fst ca) chain) (address userWallet) with
          | None => Throw (CollaboratorError "TypeError")
          | Some (_, fromAddress) =>
              let amountSun := mathRound (amount * 1000000)%Q in
              let estimatedFeeSun :=
                estimateTransactionFee tronService fromAddress toAddress amountSun in
              Ok (activationFee, (estimatedFeeSun / 1000000)%Q)
          end
    end
  else if String.eqb chain "XMR" then
    match getMoneroService e with
    | None => Throw MoneroUnavailable
    | Some estimatedFee => Ok (0%Q, estimatedFee)
    end
  else Ok (0%Q, 0%Q).

(** [token.precision ?? token.decimals ?? 8]. *)
Definition maxPrecisionOf (token : token) : Z :=
  match precision token with
  | Some p => p
  | None => match decimals token with Some d => d | None => 8 end
  end.

(** The service fee: [0] unless [token.fee] is set. *)
Definition withdrawalFeeOf (token : token) (amount : Q) : Q :=
  match fee token with
  | Some tokenFee =>
      calculateWithdrawalFee amount
        (default 0%Q (percentage tokenFee)) (default 0%Q (min tokenFee))
  | None => 0%Q
  end.

Definition storeWithdrawal (e : env) (uid cur chain : string) (amount : JsNum)
    (toAddress : string) (st : State) : result response * State :=
  if String.eqb chain "" then (Throw InvalidChain, st)
  else
    match (if isUtxoChain chain then None else validateAddress e toAddress chain) with
    | Some msg => (Throw (AddressInvalid msg), st)
    | None =>
    match findUserWallet (wallets st) uid cur with
    | None => (Throw WalletNotFound, st)
    | Some userWallet =>
    match getEcosystemToken e chain cur with
    | None => (Throw TokenNotFound, st)
    | Some token =>
      let maxPrecision := maxPrecisionOf token in
      let actualDecimals := countDecimals amount in
      if (match actualDecimals with Some a => maxPrecision <? a | None => false end)
      then (Throw (TooManyDecimals cur chain maxPrecision actualDecimals), st)
      else
        let withdrawalFee := withdrawalFeeOf token (to_Q amount) in
        match chainFees e userWallet chain toAddress (to_Q amount) with
        | Throw err => (Throw err, st)
        | Ok (activationFee, estimatedFee) =>
            let totalFee := (withdrawalFee + activationFee + estimatedFee)%Q in
            let totalAmount := (to_Q amount + totalFee)%Q in
            if Qltb (balance userWallet) totalAmount
            then (Throw InsufficientFundsError, st)
            else
              let st1 := decrementWalletBalance userWallet chain totalAmount st in
              let '(transaction, st2) :=
                createPendingTransaction uid (id userWallet) cur chain
                  (to_Q amount) toAddress totalFee st1 in
              let st3 := addTransaction (txId transaction) st2 in
              (Ok (WithdrawalSubmitted transaction
                     (balance userWallet - totalAmount)%Q chain cur), st3)
        end
    end end end.

Record request : Type := mkRequest {
  user : option string;          (* [user?.id] *)
  reqCurrency : string;
  reqChain : string;
  reqAmount : JsNum;             (* [Math.abs(parseFloat(amount))] *)
  reqToAddress : string
}.

Record httpError : Type := mkHttpError { statusCode : Z; httpMessage : string }.

(** The [catch] block of the handler. *)
Definition rethrow (err : error) : httpError :=
  if String.eqb (message err) "INSUFFICIENT_FUNDS"
  then mkHttpError 400 "Insufficient funds"
  else mkHttpError 500 ("Failed to withdraw: Error: " ++ message err)%string.

(** The default export: the [withdrawFunds] handler. *)
Definition withdrawFunds (e : env) (req : request) (st : State)
    : (httpError + response) * State :=
  match user req with
  | None => (inl (mkHttpError 401 "Unauthorized"), st)
  | Some uid =>
      let '(r, st') :=
        if String.eqb (reqChain req) "" then (Throw ChainRequired, st)
        else
          match findWalletByAddress (wallets st) (reqToAddress req) with
          | Some recipientWallet =>
              processInternalTransfer e uid (userId recipientWallet)
                (reqCurrency req) (reqChain req) (reqAmount req) st
          | None =>
              storeWithdrawal e uid (reqCurrency req) (reqChain req)
                (reqAmount req) (reqToAddress req) st
          end in
      match r with
      | Ok resp => (inr resp, st')
      | Throw err => (inl (rethrow err), st')
      end
  end.

(** Sample data for the examples: every address is valid, the token has
    precision 8 and no fee, there is no Tron or Monero service, and an
    internal transfer answers with a fixed payload. *)
Definition sampleToken : token := mkToken "BTC" (Some 8) (Some 8) None.

Definition sampleEnv : env :=
  mkEnv (fun _ _ => None) (fun _ _ => Some sampleToken) None (fun _ _ => true) None
        (fun _ _ _ _ _ st => (Ok (TransferDone "transfer"), st)).

Definition sampleWallet (wid uid addr : string) (bal ord : Q) : wallet :=
  mkWallet wid uid "BTC" "ECO" bal ord [("BTC", addr)].

End Withdraw.

(** ** UTXO deposit monitor: deposit/util/monitor/UTXODeposits.ts *)

Module Monitor.

(** Constructor options: [wallet.id], [chain], [address]. *)
Record UTXOOptions : Type := mkOptions {
  walletId : string;
  chain : string;
  address : string
}.

(** The mutable fields of a [UTXODeposits] instance.  [intervalId] is the
    handle returned by the last [setTimeout]. *)
Record UTXODeposits : Type := mkMonitor {
  active : bool;
  intervalId : option nat;
  consecutiveErrors : Z;
  processedTxHashes : gset string;
  lastBroadcastedConfirmations : gmap string Z
}.

Definition MAX_CONSECUTIVE_ERRORS : Z := 5.
Definition POLLING_INTERVAL : Z := 30000.

(** [new UTXODeposits(options)]. *)
Definition newMonitor : UTXODeposits := mkMonitor true None 0 ∅ ∅.

(** An entry of the list returned by [fetchUTXOTransactions]. *)
Record observedTx : Type := mkObserved {
  hash : string;
  confirmations : option Z;
  value : option Z
}.

Record txInput : Type := mkInput {
  output_value : option Z;
  inputAddresses : option (list string)
}.

Record txOutput : Type := mkOutput {
  outputValue : option Z;
  outputAddresses : option (list string)
}.

(** The result of [fetchUtxoTransaction]. *)
Record fullTx : Type := mkFullTx {
  inputs : option (list txInput);
  outputs : option (list txOutput)
}.

Record pendingTxData : Type := mkPending {
  pWalletId : string;
  pChain : string;
  pHash : string;
  pAddress : string;
  pAmount : Q;
  pConfirmations : Z;
  pRequiredConfirmations : Z
}.

Record txDetails : Type := mkDetails {
  dId : string;
  dChain : string;
  dHash : string;
  dFrom : list string;
  dTo : list string;
  dAmount : Q
}.

(** Calls made to the outside, in order. *)
Inductive event : Type :=
| FetchTransactions (chain address : string)
| PendingBroadcast (data : pendingTxData)
| DepositStore (data : txDetails).

(** A row of the [transaction] table: a stored ledger credit. *)
Record txRecord : Type := mkRecord {
  trxId : string;
  recWalletId : string;
  recAmount : Q
}.

(** What the monitor shares with the rest of the process: the durable
    transaction table, the pending timeouts (handle, delay in ms) and the
    trace of outgoing calls. *)
Record World : Type := mkWorld {
  db : list txRecord;
  timers : list (nat * Z);
  nextTimer : nat;
  trace : list event
}.

Inductive fullTxAnswer : Type :=
| FullThrows
| FullNull
| FullOk (tx : fullTx).

(** How a call [storeAndBroadcastTransaction(txDetails, hash)] ends: it
    resolves, or it rejects before or after the row was written. *)
Inductive storeAnswer : Type :=
| StoreOk
| StoreFailsBeforeWrite
| StoreFailsAfterWrite.

(** The answers of the collaborators to the calls made for one entry. *)
Record txAnswers : Type := mkAnswers {
  findThrows : bool;            (* [models.transaction.findOne] rejects *)
  broadcastThrows : bool;       (* the pending broadcast rejects *)
  full : fullTxAnswer;          (* [fetchUtxoTransaction] *)
  store : storeAnswer
}.

(** The answer of [fetchUTXOTransactions]. *)
Inductive fetchAnswer : Type :=
| FetchThrows
| FetchNull
| FetchOk (txs : list (observedTx * txAnswers)).

(** [chainConfigs[chain]?.confirmations], from the table in
    utils/chains. *)
Definition chainConfirmations (chain : string) : option Z :=
  if String.eqb chain "BTC" then Some 3
  else if String.eqb chain "LTC" then Some 6
  else if String.eqb chain "DOGE" then Some 6
  else if String.eqb chain "DASH" then Some 6
  else None.

(** [chainConfigs[this.chain]?.confirmations || 3]. *)
Definition requiredConfirmations (chain : string) : Z :=
  match chainConfirmations chain with
  | Some c => if c =? 0 then 3 else c
  | None => 3
  end.

(** [models.transaction.findOne({ where: { trxId, walletId } })]. *)
Definition findOne (rows : list txRecord) (h wid : string) : option txRecord :=
  List.find (fun r => String.eqb (trxId r) h && String.eqb (recWalletId r) wid) rows.

Definition logEvent (ev : event) (w : World) : World :=
  mkWorld (db w) (timers w) (nextTimer w) (trace w ++ [ev]).

Definition setTimeout (delay : Z) (w : World) : nat * World :=
  (nextTimer w,
   mkWorld (db w) (timers w ++ [(nextTimer w, delay)]) (S (nextTimer w)) (trace w)).

Definition clearTimeout (t : nat) (w : World) : World :=
  mkWorld (db w) (List.filter (fun p => negb (Nat.eqb (fst p) t)) (timers w))
          (nextTimer w) (trace w).

Definition insertRow (r : txRecord) (w : World) : World :=
  mkWorld (db w ++ [r]) (timers w) (nextTimer w) (trace w).

Definition markProcessed (h : string) (m : UTXODeposits) : UTXODeposits :=
  mkMonitor (active m) (intervalId m) (consecutiveErrors m)
            ({[h]} ∪ processedTxHashes m) (lastBroadcastedConfirmations m).

Definition setLastBroadcast (h : string) (c : Z) (m : UTXODeposits) : UTXODeposits :=
  mkMonitor (active m) (intervalId m) (consecutiveErrors m)
            (processedTxHashes m) (<[h := c]> (lastBroadcastedConfirmations m)).

Definition setErrors (n : Z) (m : UTXODeposits) : UTXODeposits :=
  mkMonitor (active m) (intervalId m) n
            (processedTxHashes m) (lastBroadcastedConfirmations m).

Definition setInterval (t : option nat) (m : UTXODeposits) : UTXODeposits :=
  mkMonitor (active m) t (consecutiveErrors m)
            (processedTxHashes m) (lastBroadcastedConfirmations m).

Section Polling.

(** [satoshiToStandardUnit] of utils/blockchain is not among the sources. *)
Variable satoshiToStandardUnit : Z -> string -> Q.
Variable opts : UTXOOptions.

(** Sum of the converted outputs that pay the watched address. *)
Definition addressedAmount (outs : list txOutput) : Q :=
  fold_left Qplus
    (List.map (fun o => satoshiToStandardUnit (default 0 (outputValue o)) (chain opts))
       (List.filter
          (fun o => match outputAddresses o with
                    | Some a => existsb (String.eqb (address opts)) a
                    | None => false
                    end) outs))
    0%Q.

Definition makeDetails (tx : observedTx) (ftx : fullTx) : txDetails :=
  let ins := default [] (inputs ftx) in
  let outs := default [] (outputs ftx) in
  mkDetails (walletId opts) (chain opts) (hash tx)
    (List.concat (List.map (fun i => default [] (inputAddresses i)) ins))
    (List.concat (List.map (fun o => default [] (outputAddresses o)) outs))
    (addressedAmount outs).

(** Modelled from the spec: [storeAndBroadcastTransaction] of
    utils/redis/deposit is not among the sources.  For a confirmed deposit
    it creates the durable record keyed by (hash, walletId), which is the
    ledger credit; for a pending update (third argument [true]) it only
    publishes.  The monitor sees whether the call resolved. *)
Definition storeAndBroadcastTransaction (d : txDetails) (ans : storeAnswer)
    (w : World) : bool * World :=
  let w1 := logEvent (DepositStore d) w in
  let row := mkRecord (dHash d) (dId d) (dAmount d) in
  match ans with
  | StoreOk => (true, insertRow row w1)
  | StoreFailsAfterWrite => (false, insertRow row w1)
  | StoreFailsBeforeWrite => (false, w1)
  end.

(** One iteration of [for (const tx of transactions)].  The boolean is
    [false] when an exception leaves the loop for the outer [catch]. *)
Definition processTx (s : UTXODeposits * World) (entry : observedTx * txAnswers)
    : bool * (UTXODeposits * World) :=
  let '(m, w) := s in
  let '(tx, ans) := entry in
  if decide (hash tx ∈ processedTxHashes m) then (true, s)
  else if findThrows ans then (false, s)
  else
    match findOne (db w) (hash tx) (walletId opts) with
    | Some existingTx => (true, (markProcessed (hash tx) m, w))
    | None =>
        let required := requiredConfirmations (chain opts) in
        let confs := default 0 (confirmations tx) in
        if confs <? required then
          let lastConfirmations := lastBroadcastedConfirmations m !! hash tx in
          let broadcast :=
            let data :=
              mkPending (walletId opts) (chain opts) (hash tx) (address opts)
                (satoshiToStandardUnit (default 0 (value tx)) (chain opts))
                confs required in
            let w1 := logEvent (PendingBroadcast data) w in
            if broadcastThrows ans then (false, (m, w1))
            else (true, (setLastBroadcast (hash tx) confs m, w1)) in
          match lastConfirmations with
          | None => broadcast
          | Some l => if negb (l =? confs) then broadcast else (true, s)
          end
        else
          match full ans with
          | FullThrows | FullNull => (true, s)
          | FullOk ftx =>
              let '(ok, w1) :=
                storeAndBroadcastTransaction (makeDetails tx ftx) (store ans) w in
              if ok then (true, (markProcessed (hash tx) m, w1))
              else (true, (m, w1))
          end
    end.

Fixpoint processAll (txs : list (observedTx * txAnswers)) (s : UTXODeposits * World)
    : bool * (UTXODeposits * World) :=
  match txs with
  | [] => (true, s)
  | entry :: rest =>
      let '(ok, s1) := processTx s entry in
      if ok then processAll rest s1 else (false, s1)
  end.

(** [stopPolling]. *)
Definition stopPolling (s : UTXODeposits * World) : UTXODeposits * World :=
  let '(m, w) := s in
  let m1 := mkMonitor false (intervalId m) (consecutiveErrors m)
              (processedTxHashes m) (lastBroadcastedConfirmations m) in
  match intervalId m1 with
  | Some t => (setInterval None m1, clearTimeout t w)
  | None => (m1, w)
  end.

(** The delay chosen at the end of a cycle. *)
Definition nextInterval (errors : Z) : Z :=
  if 0 <? errors
  then Z.min (POLLING_INTERVAL * 2 ^ (errors - 1)) 300000
  else POLLING_INTERVAL.

(** The [try] block of [pollDeposits]; [false] means the [catch] block
    runs. *)
Definition pollBody (s : UTXODeposits * World) (a : fetchAnswer)
    : bool * (UTXODeposits * World) :=
  let '(m, w) := s in
  let w1 := logEvent (FetchTransactions (chain opts) (address opts)) w in
  match a with
  | FetchThrows => (false, (m, w1))
  | FetchNull | FetchOk [] => (true, (setErrors 0 m, w1))
  | FetchOk txs =>
      let '(ok, (m2, w2)) := processAll txs (m, w1) in
      if ok then (true, (setErrors 0 m2, w2)) else (false, (m2, w2))
  end.

(** Scheduling of the next poll, the last statement of [pollDeposits]. *)
Definition scheduleNext (s : UTXODeposits * World) : UTXODeposits * World :=
  let '(m, w) := s in
  if active m then
    let '(t, w1) := setTimeout (nextInterval (consecutiveErrors m)) w in
    (setInterval (Some t) m, w1)
  else s.

(** The closure [pollDeposits] of [startPolling]: one poll cycle. *)
Definition pollDeposits (s : UTXODeposits * World) (a : fetchAnswer)
    : UTXODeposits * World :=
  if negb (active (fst s)) then s
  else
    let '(ok, (m1, w1)) := pollBody s a in
    if ok then scheduleNext (m1, w1)
    else
      let m2 := setErrors (consecutiveErrors m1 + 1) m1 in
      if MAX_CONSECUTIVE_ERRORS <=? consecutiveErrors m2
      then stopPolling (m2, w1)
      else scheduleNext (m2, w1).

(** [watchDeposits], which awaits [startPolling]. *)
Definition watchDeposits (s : UTXODeposits * World) (a : fetchAnswer)
    : UTXODeposits * World :=
  if negb (active (fst s)) then s else pollDeposits s a.

Definition isPending (t : nat) (w : World) : bool :=
  existsb (fun p => Nat.eqb (fst p) t) (timers w).

(** What can happen to a monitor. [Restart] is a process restart: the
    timeouts and the instance are lost, a new instance is constructed and
    [watchDeposits] is called on it. *)
Inductive action : Type :=
| TimerFires (t : nat) (a : fetchAnswer)
| CallWatchDeposits (a : fetchAnswer)
| CallStopPolling
| Restart (a : fetchAnswer).

Definition step (s : UTXODeposits * World) (act : action) : UTXODeposits * World :=
  match act with
  | TimerFires t a =>
      if isPending t (snd s)
      then pollDeposits (fst s, clearTimeout t (snd s)) a
      else s
  | CallWatchDeposits a => watchDeposits s a
  | CallStopPolling => stopPolling s
  | Restart a =>
      let w := snd s in
      watchDeposits (newMonitor, mkWorld (db w) [] (nextTimer w) (trace w)) a
  end.

Definition run (acts : list action) (s : UTXODeposits * World) : UTXODeposits * World :=
  fold_left step acts s.

Definition isRestart (act : action) : bool :=
  match act with Restart _ => true | _ => false end.

(** Does the cycle started now from [s] end in the [catch] block? *)
Definition cycleFails (s : UTXODeposits * World) (a : fetchAnswer) : bool :=
  active (fst s) && negb (fst (pollBody s a)).

(** The timeout whose handle the monitor holds fires: it leaves the set of
    pending timeouts.  [None] when no such timeout is pending. *)
Definition timerDue (s : UTXODeposits * World) : option (UTXODeposits * World) :=
  match intervalId (fst s) with
  | Some t => if isPending t (snd s) then Some (fst s, clearTimeout t (snd s)) else None
  | None => None
  end.

(** A timer-driven loop: the first cycle runs now, each later one when
    the timeout set by the previous cycle fires. *)
Fixpoint pollLoop (answers : list fetchAnswer) (s : UTXODeposits * World)
    : UTXODeposits * World :=
  match answers with
  | [] => s
  | a :: rest =>
      let s1 := pollDeposits s a in
      match rest with
      | [] => s1
      | _ => match timerDue s1 with Some s2 => pollLoop rest s2 | None => s1 end
      end
  end.

(** Every cycle of the loop runs and ends in the [catch] block. *)
Fixpoint allFail (answers : list fetchAnswer) (s : UTXODeposits * World) : bool :=
  match answers with
  | [] => true
  | a :: rest =>
      cycleFails s a &&
      match rest with
      | [] => true
      | _ =>
          match timerDue (pollDeposits s a) with
          | Some s2 => allFail rest s2
          | None => false
          end
      end
  end.

(** The monitor is running and has neither processed [h] nor found it
    stored. *)
Definition watching (h : string) (s : UTXODeposits * World) : Prop :=
  active (fst s) = true /\
  (h ∉ processedTxHashes (fst s)) /\
  findOne (db (snd s)) h (walletId opts) = None.

(** The stored credits for a hash and this wallet. *)
Definition credits (h : string) (w : World) : nat :=
  List.length
    (List.filter (fun r => String.eqb (trxId r) h && String.eqb (recWalletId r) (walletId opts))
       (db w)).

(** Confirmation counts of the pending broadcasts sent for a hash. *)
Definition pendingBroadcasts (h : string) (evs : list event) : list Z :=
  flat_map (fun ev =>
    match ev with
    | PendingBroadcast d => if String.eqb (pHash d) h then [pConfirmations d] else []
    | _ => []
    end) evs.

End Polling.

(** Two states agree on the control fields of the monitor and on the
    timeouts. *)
Definition sameControl (s s' : UTXODeposits * World) : Prop :=
  active (fst s') = active (fst s) /\
  intervalId (fst s') = intervalId (fst s) /\
  consecutiveErrors (fst s') = consecutiveErrors (fst s) /\
  timers (snd s') = timers (snd s) /\
  nextTimer (snd s') = nextTimer (snd s).

(** A stopped monitor with no timeout pending. *)
Definition stopped (s : UTXODeposits * World) : Prop :=
  active (fst s) = false /\ intervalId (fst s) = None /\ timers (snd s) = [].

(** Sample data for the examples: a Litecoin address (six confirmations
    required), amounts in units of 10^-8, an empty world, and collaborators
    that answer every call. *)
Definition sampleOptions : UTXOOptions := mkOptions "w1" "LTC" "ltc1-watch".

Definition sampleUnits (v : Z) (chain : string) : Q := Qmake v 100000000.

Definition emptyWorld : World := mkWorld [] [] 0 [].

Definition okAnswers : txAnswers :=
  mkAnswers false false (FullOk (mkFullTx None None)) StoreOk.

(** The answer of a fetch that reports one transaction [h] with [c]
    confirmations. *)
Definition sighting (h : string) (v : option Z) (ans : txAnswers) (c : Z) : fetchAnswer :=
  FetchOk [(mkObserved h (Some c) v, ans)].

(** The changes of a sequence of confirmation counts: each count that
    differs from the one before it, [prev] being the count before the
    first. *)
Fixpoint changes (prev : option Z) (cs : list Z) : list Z :=
  match cs with
  | [] => []
  | c :: rest =>
      if decide (prev = Some c) then changes (Some c) rest
      else c :: changes (Some c) rest
  end.

End Monitor.

(** ** Explorer transaction cache: utils/transactions.ts *)

Module TxCache.

Definition CACHE_EXPIRATION : Z := 30.

(** An element of the explorer's [result] array. *)
Record rawTx : Type := mkRaw {
  timeStamp : string; rawHash : string; rawFrom : string; rawTo : string;
  rawValue : string; functionName : string; rawMethodId : string;
  contractAddress : string; rawConfirmations : string;
  txreceipt_status : string; rawIsError : string;
  rawGas : string; rawGasPrice : string; rawGasUsed : string
}.

Record ParsedTransaction : Type := mkParsed {
  timestamp : string; hash : string; from : string; to : string;
  amount : string; method : string; methodId : string; contract : string;
  confirmations : string; status : string; isError : string;
  gas : string; gasPrice : string; gasUsed : string
}.

(** The cached JSON document; [stamp] is the instant of
    [new Date().toISOString()], in milliseconds. *)
Record cacheData : Type := mkCache {
  transactions : list ParsedTransaction;
  stamp : Z
}.

(** A Redis string key with its expiry instant (ms). *)
Record redisEntry : Type := mkEntry { payload : cacheData; expiresAt : Z }.

(** The state around [fetchAndParseTransactions]: the Redis keyspace and
    the number of calls made to [config.fetchFunction]. *)
Record State : Type := mkState {
  redis : gmap string redisEntry;
  networkCalls : nat
}.

(** Redis GET at instant [now]: an expired key is gone. *)
Definition redisGet (now : Z) (key : string) (r : gmap string redisEntry)
    : option cacheData :=
  match r !! key with
  | Some e => if now <? expiresAt e then Some (payload e) else None
  | None => None
  end.

(** Redis SETEX key seconds value: the time to live is in seconds. *)
Definition redisSetex (now : Z) (key : string) (seconds : Z) (v : cacheData)
    (r : gmap string redisEntry) : gmap string redisEntry :=
  <[key := mkEntry v (now + seconds * 1000)]> r.

(** date-fns [differenceInMinutes]: whole minutes, truncated. *)
Definition differenceInMinutes (later earlier : Z) : Z :=
  Z.quot (later - earlier) 60000.

Definition lowerChar (c : ascii) : ascii :=
  let v := nat_of_ascii c in
  if (65 <=? v)%nat && (v <=? 90)%nat then ascii_of_nat (v + 32) else c.

Fixpoint toLowerCase (s : string) : string :=
  match s with
  | EmptyString => EmptyString
  | String c r => String (lowerChar c) (toLowerCase r)
  end.

Definition cacheKey (address chain : string) : string :=
  ("wallet:" ++ address ++ ":transactions:" ++ toLowerCase chain)%string.

Definition getCachedData (now : Z) (key : string) (r : gmap string redisEntry)
    : option (list ParsedTransaction) :=
  match redisGet now key r with
  | Some cachedData =>
      let lastUpdated := stamp cachedData in
      if differenceInMinutes now lastUpdated <? CACHE_EXPIRATION
      then Some (transactions cachedData)
      else None
  | None => None
  end.

(** The answer of [config.fetchFunction]: it throws, or returns a document
    whose [result] is not an array, or returns the array. *)
Inductive upstream : Type :=
| UpstreamThrows
| UpstreamMalformed
| UpstreamResult (result : list rawTx).

Definition parseTx (rawTx : rawTx) : ParsedTransaction :=
  mkParsed (timeStamp rawTx) (rawHash rawTx) (rawFrom rawTx) (rawTo rawTx)
    (rawValue rawTx) (functionName rawTx) (rawMethodId rawTx)
    (contractAddress rawTx) (rawConfirmations rawTx) (txreceipt_status rawTx)
    (rawIsError rawTx) (rawGas rawTx) (rawGasPrice rawTx) (rawGasUsed rawTx).

(** [parseRawTransactions]; [None] when it throws. *)
Definition parseRawTransactions (u : upstream) : option (list ParsedTransaction) :=
  match u with
  | UpstreamResult result => Some (List.map parseTx result)
  | _ => None
  end.

(** [fetchAndParseTransactions(address, chain, config)] called at instant
    [now]; [later] is the instant at which the upstream answer has arrived.
    [None] in the result when an exception is thrown. *)
Definition fetchAndParseTransactions (address chain : string) (cache : bool)
    (now later : Z) (u : upstream) (st : State)
    : option (list ParsedTransaction) * State :=
  let key := cacheKey address chain in
  match (if cache then getCachedData now key (redis st) else None) with
  | Some cachedData => (Some cachedData, st)
  | None =>
      let st1 := mkState (redis st) (S (networkCalls st)) in
      match u with
      | UpstreamThrows => (None, st1)
      | _ =>
          match parseRawTransactions u with
          | None => (None, st1)
          | Some parsedTransactions =>
              let st2 :=
                if cache then
                  mkState
                    (redisSetex later key CACHE_EXPIRATION
                       (mkCache parsedTransactions later) (redis st1))
                    (networkCalls st1)
                else st1 in
              (Some parsedTransactions, st2)
          end
      end
  end.

(** [chainConfigs[chain].cache], from the table in utils/chains; [None]
    for a chain without an entry. *)
Definition chainCache (chain : string) : option bool :=
  if existsb (String.eqb chain)
       ["ETH"; "BSC"; "POLYGON"; "FTM"; "OPTIMISM"; "ARBITRUM"; "BASE"; "CELO";
        "MO"; "RSK"; "CRONOS"; "BTC"; "LTC"; "DOGE"; "DASH"; "SOL"]
  then Some true
  else if existsb (String.eqb chain) ["TRON"; "HECO"; "XMR"; "TON"]
  then Some false
  else None.

(** The chains that [fetchEcosystemTransactions] hands to a service of
    their own (UTXO node, Solana, Tron, Monero, TON). *)
Definition dedicatedService (chain : string) : bool :=
  existsb (String.eqb chain) ["BTC"; "LTC"; "DOGE"; "DASH"; "SOL"; "TRON"; "XMR"; "TON"].

Inductive fetched : Type :=
| Unsupported                                   (* "Unsupported chain" *)
| ByService                                     (* answered by a dedicated service *)
| ByExplorer (r : option (list ParsedTransaction)).

(** [fetchEcosystemTransactions(chain, address)]; the dedicated services
    are not modelled. *)
Definition fetchEcosystemTransactions (chain address : string) (now later : Z)
    (u : upstream) (st : State) : fetched * State :=
  match chainCache chain with
  | None => (Unsupported, st)
  | Some cache =>
      if dedicatedService chain then (ByService, st)
      else
        let '(r, st1) := fetchAndParseTransactions address chain cache now later u st in
        (ByExplorer r, st1)
  end.

(** Sample data for the examples. *)
Definition sampleRaw (h : string) : rawTx :=
  mkRaw "1700000000" h "0xfrom" "0xabc" "1000" "" "0x" "" "12" "1" "0" "21000" "1" "21000".

End TxCache.

(** ** Node-backed lookup: utils/utxo/btc-node.ts *)

Module BtcNode.

(** An entry of the node's [listtransactions] answer. *)
Record walletTx : Type := mkWalletTx {
  txid : string;
  address : option string;
  category : string;
  amount : Q;
  confirmations : Z
}.

(** The wallet RPC [listtransactions label count skip include_watchonly]
    of the node: up to [count] most recent transactions of the wallet,
    skipping the first [skip]. [history] lists the wallet's transactions
    oldest first, and so does the answer. *)
Definition listtransactions (history : list walletTx) (count skip : nat)
    : list walletTx :=
  List.rev (firstn count (skipn skip (List.rev history))).

(** [walletRpcCall]: the node answers or the call throws ([inl msg]). *)
Definition walletRpcCall (down : option string) (answer : list walletTx)
    : string + list walletTx :=
  match down with
  | Some msg => inl msg
  | None => inr answer
  end.

Definition addressIs (a : string) (tx : walletTx) : bool :=
  match address tx with
  | Some b => String.eqb b a
  | None => false
  end.

(** [getAddressTransactions]. *)
Definition getAddressTransactions (down : option string) (history : list walletTx)
    (a : string) : string + list walletTx :=
  match walletRpcCall down (listtransactions history 100 0) with
  | inl msg => inl msg
  | inr transactions => inr (List.filter (addressIs a) transactions)
  end.

(** Sample data for the examples. *)
Definition sampleTx (id a : string) : walletTx :=
  mkWalletTx id (Some a) "receive" 1 6.

End BtcNode.

(** ** Invariants of the deposit monitor *)

Module MonitorInvariants.
Import Monitor.

(** Every hash in [processedTxHashes] has a stored row for this wallet. *)
Definition backed (opts : UTXOOptions) (s : UTXODeposits * World) : Prop :=
  forall h, h ∈ processedTxHashes (fst s) ->
            findOne (db (snd s)) h (walletId opts) <> None.

(** At most one timeout is pending, and the monitor holds its handle. *)
Definition oneTimer (s : UTXODeposits * World) : Prop :=
  timers (snd s) = [] \/
  exists t d, intervalId (fst s) = Some t /\ timers (snd s) = [(t, d)].

(** The events that the monitor's own loop produces: its timeout fires,
    or [stopPolling] is called. *)
Definition timerDriven (act : action) : bool :=
  match act with
  | TimerFires _ _ | CallStopPolling => true
  | _ => false
  end.

(** Does an output pay the watched address? *)
Definition pays (opts : UTXOOptions) (o : txOutput) : bool :=
  match outputAddresses o with
  | Some a => existsb (String.eqb (address opts)) a
  | None => false
  end.

End MonitorInvariants.

(** ** Explorer requests: utils/transactions.ts *)

Module Explorer.
Import TxCache.

(** An entry of [networks] in the chain table. *)
Record Network : Type := mkNetwork {
  explorer : string;
  chainId : option Z
}.

(** The fields of a chain table entry that
    [fetchGeneralEcosystemTransactions] reads. *)
Record ChainConfig : Type := mkChainConfig {
  explorerApi : option bool;
  networks : list (string * Network)
}.

(** The JSON document an explorer answers with; [result] is [None] when
    it is not an array. *)
Record explorerData : Type := mkData {
  status : string;
  message : string;
  result : option (list rawTx)
}.

(** [fetch(url)] followed by [response.json()]. *)
Inductive httpAnswer : Type :=
| HttpFails (msg : string)
| HttpJson (data : explorerData).

Inductive fetchError : Type :=
| UnsupportedChain (chain : string)
| EnvNotSet (var : string)
| Misconfigured (networkName chain : string)
| ApiCallFailed (msg : string).

(** [process.env[var]], with the empty string as falsy as an unset
    variable. *)
Definition getenv (env : gmap string string) (var : string) : option string :=
  match env !! var with
  | Some v => if String.eqb v "" then None else Some v
  | None => None
  end.

Definition lookupNetwork (name : string) (nets : list (string * Network)) : option Network :=
  match List.find (fun p => String.eqb (fst p) name) nets with
  | Some p => Some (snd p)
  | None => None
  end.

Definition networkEnvVar (chain : string) : string := (chain ++ "_NETWORK")%string.
Definition apiEnvVar (chain : string) : string := (chain ++ "_EXPLORER_API_KEY")%string.

(** The request URL. *)
Definition requestUrl (network : Network) (address : string) (hasExplorerApi : bool)
    (apiKey : option string) : string :=
  let chainIdParam :=
    match chainId network with
    | Some c => if c =? 0 then "" else ("&chainid=" ++ Withdraw.show_Z c)%string
    | None => ""
    end in
  ("https://" ++ explorer network ++ "/v2/api?module=account&action=txlist&address=" ++
   address ++ "&startblock=0&endblock=99999999&sort=desc" ++ chainIdParam ++
   (if hasExplorerApi then "&apikey=" ++ default "undefined" apiKey else ""))%string.

(** [fetchGeneralEcosystemTransactions(chain, address)]; the chain table,
    the environment and the explorer are arguments. *)
Definition fetchGeneralEcosystemTransactions
    (chainConfigs : string -> option ChainConfig) (env : gmap string string)
    (http : string -> httpAnswer) (chain address : string)
    : fetchError + explorerData :=
  match chainConfigs chain with
  | None => inl (UnsupportedChain chain)
  | Some chainConfig =>
      match getenv env (networkEnvVar chain) with
      | None => inl (EnvNotSet (networkEnvVar chain))
      | Some networkName =>
          let hasExplorerApi := default true (explorerApi chainConfig) in
          let apiKey := getenv env (apiEnvVar chain) in
          if hasExplorerApi && negb (bool_decide (is_Some apiKey))
          then inl (EnvNotSet (apiEnvVar chain))
          else
            match lookupNetwork networkName (networks chainConfig) with
            | None => inl (Misconfigured networkName chain)
            | Some network =>
                if String.eqb (explorer network) ""
                then inl (Misconfigured networkName chain)
                else
                  match http (requestUrl network address hasExplorerApi apiKey) with
                  | HttpFails msg => inl (ApiCallFailed msg)
                  | HttpJson data =>
                      if String.eqb (status data) "0" && String.eqb (message data) "NOTOK"
                      then inr (mkData "1" "OK" (Some []))
                      else inr data
                  end
            end
      end
  end.

(** What [config.fetchFunction] hands to [fetchAndParseTransactions] for a
    chain served by [fetchGeneralEcosystemTransactions]. *)
Definition asUpstream (r : fetchError + explorerData) : upstream :=
  match r with
  | inl _ => UpstreamThrows
  | inr data =>
      match result data with
      | Some txs => UpstreamResult txs
      | None => UpstreamMalformed
      end
  end.

(** Two entries of the chain table. *)
Definition sampleConfigs (chain : string) : option ChainConfig :=
  if String.eqb chain "ETH" then
    Some (mkChainConfig None
            [("mainnet", mkNetwork "api.etherscan.io" (Some 1));
             ("sepolia", mkNetwork "api-sepolia.etherscan.io" (Some 11155111))])
  else if String.eqb chain "MO" then
    Some (mkChainConfig (Some false)
            [("mainnet", mkNetwork "mainnet.mochain.app" None);
             ("testnet", mkNetwork "testnet.mochain.app" None)])
  else None.

End Explorer.

(** ** The node service: utils/utxo/btc-node.ts *)

Module BtcNodeService.
Import JsNumber.

(** The outcome of one JSON-RPC request: the HTTP exchange fails, or the
    node answers with a document that carries an [error] object (with or
    without a message) or none, and a [result]. *)
Inductive rpcAnswer (A : Type) : Type :=
| FetchFails (msg : string)
| JsonAnswer (error : option (option string)) (result : A).
Arguments FetchFails {A} msg.
Arguments JsonAnswer {A} error result.

(** The common body of [rpcCall] and [walletRpcCall]; [fallback] is the
    message used when the error carries none. *)
Definition rpcCallWith {A : Type} (fallback : string) (ans : rpcAnswer A) : string + A :=
  match ans with
  | FetchFails msg => inl msg
  | JsonAnswer (Some m) _ =>
      inl (match m with
           | Some s => if String.eqb s "" then fallback else s
           | None => fallback
           end)
  | JsonAnswer None r => inr r
  end.

Definition rpcCall {A : Type} (ans : rpcAnswer A) : string + A :=
  rpcCallWith "RPC call failed" ans.

Definition walletRpcCall {A : Type} (ans : rpcAnswer A) : string + A :=
  rpcCallWith "Wallet RPC call failed" ans.

(** [ensureWalletExists]: the error it throws, if any, and the RPC methods
    it has called. *)
Definition ensureWalletExists (load create : rpcAnswer unit) : option string * list string :=
  match rpcCall load with
  | inr _ => (None, ["loadwallet"])
  | inl msg =>
      if includes msg "not found" || includes msg "does not exist" then
        match rpcCall create with
        | inr _ => (None, ["loadwallet"; "createwallet"])
        | inl _ => (None, ["loadwallet"; "createwallet"])
        end
      else if includes msg "already loaded" then (None, ["loadwallet"])
      else (Some msg, ["loadwallet"])
  end.

(** [initialize]. *)
Definition initialize (info load create : rpcAnswer unit) : option string * list string :=
  match rpcCall info with
  | inl msg => (Some msg, ["getblockchaininfo"])
  | inr _ =>
      let '(thrown, calls) := ensureWalletExists load create in
      (thrown, "getblockchaininfo" :: calls)
  end.

(** [getInstance]: [instance] tells whether the static field is set; the
    result is the error thrown, the field afterwards and the RPC methods
    called. *)
Definition getInstance (instance : bool) (info load create : rpcAnswer unit)
    : option string * bool * list string :=
  if negb instance then
    let '(thrown, calls) := initialize info load create in
    (thrown, true, calls)
  else (None, true, []).

(** [importAddress]: the error it throws, if any. *)
Definition importAddress (ans : rpcAnswer unit) : option string :=
  match walletRpcCall ans with
  | inr _ => None
  | inl msg => if includes msg "already have this key" then None else Some msg
  end.

Record utxo : Type := mkUtxo { utxoTxid : string; vout : nat; utxoAmount : Q }.

(** [getAddressBalance]. *)
Definition getAddressBalance (ans : rpcAnswer (list utxo)) : Q :=
  match walletRpcCall ans with
  | inr unspent => fold_left (fun sum u => (sum + utxoAmount u)%Q) unspent 0%Q
  | inl _ => 0%Q
  end.

(** [listUnspent]. *)
Definition listUnspent (ans : rpcAnswer (list utxo)) : list utxo :=
  match walletRpcCall ans with
  | inr utxos => utxos
  | inl _ => []
  end.

End BtcNodeService.

(** * Properties *)

(** ** Printing of numbers and [countDecimals] *)

Module JsNumberFacts.
Import JsNumber.

Lemma append_nil (b : string) : ("" ++ b)%string = b.
Proof. reflexivity. Qed.

Lemma append_cons (x : ascii) (a b : string) :
  (String x a ++ b)%string = String x (a ++ b)%string.
Proof. reflexivity. Qed.

Ltac push_append := rewrite ?append_cons, ?append_nil; simpl.

Lemma lacks_append c (a b : string) :
  lacks c a -> lacks c b -> lacks c (a ++ b)%string.
Proof. induction a as [|x a IH]; push_append; intuition. Qed.

Lemma digit_char_not c (d : nat) :
  (d < 10)%nat -> nonDigit c = true -> digit_char d <> c.
Proof.
  intros Hd Hc Heq. subst c. unfold nonDigit, digit_char in Hc.
  rewrite nat_ascii_embedding in Hc by lia.
  apply orb_true_iff in Hc. destruct Hc as [Hc|Hc].
  - apply Nat.ltb_lt in Hc. lia.
  - apply Nat.ltb_lt in Hc. lia.
Qed.

Lemma lacks_digits c (ds : list nat) :
  nonDigit c = true ->
  List.Forall (fun d => (d < 10)%nat) ds -> lacks c (digits_string ds).
Proof.
  intros Hc. induction 1 as [|d ds Hd Hds IH]; simpl; [exact I|].
  split; [apply digit_char_not; assumption | exact IH].
Qed.

Lemma lacks_zeros c (n : nat) : c <> "0"%char -> lacks c (zeros n).
Proof. intros Hc. induction n; simpl; auto. Qed.

Lemma length_digits_string (ds : list nat) :
  String.length (digits_string ds) = List.length ds.
Proof. induction ds; simpl; congruence. Qed.

Lemma length_zeros (n : nat) : String.length (zeros n) = n.
Proof. induction n; simpl; congruence. Qed.

Lemma length_append (a b : string) :
  String.length (a ++ b)%string = (String.length a + String.length b)%nat.
Proof. induction a; push_append; congruence. Qed.

Lemma index_lacks c (t s : string) :
  lacks c s -> String.index 0 (String c t) s = None.
Proof.
  induction s as [|b s IH]; simpl; [reflexivity|].
  intros [Hb Hs]. destruct (ascii_dec c b) as [->|_]; [contradiction|].
  now rewrite IH.
Qed.

Lemma index_found c (a b : string) :
  lacks c a -> String.index 0 (String c "") (a ++ String c b)%string = Some (String.length a).
Proof.
  induction a as [|x a IH]; push_append.
  - intros _. destruct (ascii_dec c c) as [_|Hn]; [|contradiction].
    destruct b; reflexivity.
  - intros [Hx Ha]. destruct (ascii_dec c x) as [->|_]; [contradiction|].
    now rewrite IH.
Qed.

Lemma substring_all (s : string) : String.substring 0 (String.length s) s = s.
Proof. induction s; simpl; congruence. Qed.

Lemma substring_left (a b : string) :
  String.substring 0 (String.length a) (a ++ b)%string = a.
Proof.
  induction a as [|x a IH]; push_append; [destruct b; reflexivity | congruence].
Qed.

Lemma substring_right c (a b : string) :
  String.substring (String.length a + 1) (String.length b) (a ++ String c b)%string = b.
Proof.
  induction a as [|x a IH]; push_append; [apply substring_all | exact IH].
Qed.

(** Splitting at the only occurrence of a character. *)
Lemma split_once c (a b : string) :
  lacks c a -> lacks c b ->
  split (a ++ String c b)%string (String c "") = [a; b].
Proof.
  intros Ha Hb. unfold split. rewrite length_append. simpl String.length.
  replace (S (String.length a + S (String.length b)))
    with (S (S (String.length a + String.length b))) by lia.
  cbn [split_fuel]. rewrite (index_found c a b Ha).
  rewrite substring_left. simpl String.length.
  rewrite length_append. simpl String.length.
  replace (String.length a + S (String.length b) - (String.length a + 1))%nat
    with (String.length b) by lia.
  rewrite substring_right. rewrite (index_lacks c "" b Hb). reflexivity.
Qed.

Lemma sig_value_app (ds : list nat) (d : nat) :
  sig_value (ds ++ [d])%list = 10 * sig_value ds + Z.of_nat d.
Proof. unfold sig_value. rewrite List.fold_left_app. reflexivity. Qed.

(** The last digit of a well-formed significand is not zero, so the
    significand is not a multiple of ten. *)
Lemma sig_value_mod10 (ds : list nat) :
  ds <> [] -> List.Forall (fun d => (d < 10)%nat) ds ->
  sig_value ds mod 10 = Z.of_nat (List.last ds 1%nat).
Proof.
  intros Hne Hall.
  destruct (List.exists_last Hne) as [ds' [d ->]].
  rewrite sig_value_app, List.last_last.
  apply List.Forall_app in Hall. destruct Hall as [_ Hd].
  inversion Hd as [|? ? Hlt _]; subst.
  rewrite Z.add_comm, Z.mul_comm, Z.mod_add by lia.
  apply Z.mod_small. lia.
Qed.

Lemma isInteger_whole (x : JsNum) :
  Z.of_nat (List.length (sig x)) <= pt x -> isInteger x = true.
Proof.
  intros H. unfold isInteger, to_Q.
  replace (0 <=? pt x - Z.of_nat (List.length (sig x))) with true
    by (symmetry; apply Z.leb_le; lia).
  simpl. rewrite Z.mod_1_r. reflexivity.
Qed.

Lemma isInteger_zero (n : Z) : isInteger (mkNum [] n) = true.
Proof.
  unfold isInteger, to_Q. cbn [sig pt List.length].
  destruct (0 <=? n - Z.of_nat 0); reflexivity.
Qed.

Lemma isInteger_fraction (x : JsNum) :
  wf x -> sig x <> [] -> pt x < Z.of_nat (List.length (sig x)) -> isInteger x = false.
Proof.
  intros Hwf Hne Hlt. unfold isInteger, to_Q.
  replace (0 <=? pt x - Z.of_nat (List.length (sig x))) with false
    by (symmetry; apply Z.leb_gt; lia).
  simpl. apply Z.eqb_neq. intros Hmod.
  set (m := - (pt x - Z.of_nat (List.length (sig x)))) in *.
  assert (0 < m) as Hm by (unfold m; lia).
  assert (0 < 10 ^ m) as Hpow by (apply Z.pow_pos_nonneg; lia).
  rewrite Z2Pos.id in Hmod by exact Hpow.
  apply Z.mod_divide in Hmod; [|lia].
  assert ((10 | 10 ^ m)) as H10.
  { exists (10 ^ (m - 1)).
    assert (10 ^ m = 10 ^ (m - 1) * 10 ^ 1) as ->
      by (rewrite <- Z.pow_add_r by lia; f_equal; lia).
    reflexivity. }
  assert ((10 | sig_value (sig x))) as Hdiv by (eapply Z.divide_trans; eauto).
  apply Z.mod_divide in Hdiv; [|lia].
  unfold wf in Hwf. destruct (sig x) as [|d rest] eqn:Es; [congruence|].
  destruct Hwf as (_ & Hlast & Hall & _).
  rewrite sig_value_mod10 in Hdiv by (auto; discriminate). lia.
Qed.

Lemma toString_fraction (ds : list nat) (n : Z) :
  0 < n < Z.of_nat (List.length ds) -> Z.of_nat (List.length ds) <= 21 ->
  toString (mkNum ds n) =
    (digits_string (firstn (Z.to_nat n) ds) ++
     String "." (digits_string (skipn (Z.to_nat n) ds)))%string.
Proof.
  intros Hn Hk. destruct ds as [|d rest]; [simpl in Hn; lia|].
  unfold toString. cbn [sig pt].
  replace ((Z.of_nat (List.length (d :: rest)) <=? n) && (n <=? 21)) with false
    by (symmetry; apply andb_false_iff; left; apply Z.leb_gt; lia).
  replace ((0 <? n) && (n <=? 21)) with true
    by (symmetry; apply andb_true_iff; split;
        [apply Z.ltb_lt | apply Z.leb_le]; lia).
  reflexivity.
Qed.

Lemma toString_small (ds : list nat) (n : Z) :
  ds <> [] -> -6 < n <= 0 ->
  toString (mkNum ds n) =
    ("0" ++ String "." (zeros (Z.to_nat (- n)) ++ digits_string ds))%string.
Proof.
  intros Hne Hn. destruct ds as [|d rest]; [congruence|].
  unfold toString. cbn [sig pt].
  replace ((Z.of_nat (List.length (d :: rest)) <=? n) && (n <=? 21)) with false
    by (symmetry; apply andb_false_iff; left; apply Z.leb_gt;
        cbn [List.length]; lia).
  replace ((0 <? n) && (n <=? 21)) with false
    by (symmetry; apply andb_false_iff; left; apply Z.ltb_ge; lia).
  replace ((-6 <? n) && (n <=? 0)) with true
    by (symmetry; apply andb_true_iff; split;
        [apply Z.ltb_lt | apply Z.leb_le]; lia).
  reflexivity.
Qed.

(** What [countDecimals] computes on a string with one dot and no "e". *)
Lemma count_after_dot (a b : string) :
  lacks "e" a -> lacks "e" b -> lacks "." a -> lacks "." b ->
  (if includes (a ++ String "." b) "e-"
   then match split (a ++ String "." b) "e-" with
        | _ :: exponent :: _ => parseInt exponent
        | _ => None
        end
   else match split (a ++ String "." b) "." with
        | _ :: p1 :: _ => Some (Z.of_nat (String.length p1))
        | _ => Some 0
        end) = Some (Z.of_nat (String.length b)).
Proof.
  intros Hea Heb Hda Hdb. unfold includes.
  rewrite index_lacks.
  - rewrite split_once by assumption. reflexivity.
  - apply lacks_append; [exact Hea|]. simpl. split; [discriminate | exact Heb].
Qed.

(** For a well-formed amount that JavaScript prints in plain decimal
    notation (exponent above -6), [countDecimals] is the number of decimal
    places. *)
Lemma countDecimals_plain (x : JsNum) :
  wf x -> -6 < pt x -> countDecimals x = Some (decimal_places x).
Proof.
  intros Hwf Hpt. destruct x as [ds n]. unfold countDecimals, decimal_places.
  cbn [sig pt] in *.
  destruct ds as [|d rest].
  { rewrite isInteger_zero. reflexivity. }
  remember (d :: rest) as ds eqn:Eds.
  assert (ds <> []) as Hne by (subst ds; discriminate).
  destruct (Z_le_gt_dec (Z.of_nat (List.length ds)) n) as [Hle|Hgt].
  { rewrite isInteger_whole by (cbn [sig pt]; exact Hle). f_equal. lia. }
  rewrite (isInteger_fraction _ Hwf) by (cbn [sig pt]; auto; lia).
  assert (List.Forall (fun c => (c < 10)%nat) ds /\ (List.length ds <= 17)%nat)
    as [Hall Hlen].
  { unfold wf in Hwf. cbn [sig] in Hwf. subst ds. tauto. }
  destruct (Z_lt_le_dec 0 n) as [Hpos|Hnonpos].
  - rewrite toString_fraction by lia.
    rewrite count_after_dot.
    + rewrite length_digits_string, List.length_skipn. f_equal. lia.
    + apply lacks_digits; [reflexivity | now apply Forall_take].
    + apply lacks_digits; [reflexivity | now apply Forall_drop].
    + apply lacks_digits; [reflexivity | now apply Forall_take].
    + apply lacks_digits; [reflexivity | now apply Forall_drop].
  - rewrite toString_small by (auto; lia).
    rewrite count_after_dot.
    + rewrite length_append, length_zeros, length_digits_string. f_equal. lia.
    + simpl. split; [discriminate | exact I].
    + apply lacks_append; [apply lacks_zeros; discriminate|].
      apply lacks_digits; [reflexivity | exact Hall].
    + simpl. split; [discriminate | exact I].
    + apply lacks_append; [apply lacks_zeros; discriminate|].
      apply lacks_digits; [reflexivity | exact Hall].
Qed.

End JsNumberFacts.

(** ** Withdrawals *)

Module WithdrawFacts.
Import JsNumber Withdraw.

Lemma Qltb_true (x y : Q) : Qltb x y = true <-> (x < y)%Q.
Proof.
  unfold Qltb. rewrite negb_true_iff. split.
  - intros H. apply Qnot_le_lt. intros Hle. apply Qle_bool_iff in Hle. congruence.
  - intros H. destruct (Qle_bool y x) eqn:E; [|reflexivity].
    apply Qle_bool_iff in E. exfalso. exact (Qlt_not_le _ _ H E).
Qed.

Lemma Qltb_false (x y : Q) : Qltb x y = false <-> (y <= x)%Q.
Proof.
  unfold Qltb. rewrite negb_false_iff. apply Qle_bool_iff.
Qed.


Lemma findUserWallet_In ws uid cur w :
  findUserWallet ws uid cur = Some w -> In w ws.
Proof. intros H. apply List.find_some in H. tauto. Qed.

Lemma unique_id (ws : list wallet) (x w : wallet) :
  List.NoDup (List.map id ws) -> In x ws -> In w ws -> id x = id w -> x = w.
Proof.
  induction ws as [|a ws IH]; simpl; [tauto|].
  intros Hnd Hx Hw Hid. inversion Hnd as [|? ? Hnot Hnd']; subst.
  destruct Hx as [->|Hx], Hw as [->|Hw]; auto.
  - exfalso. apply Hnot. rewrite Hid. now apply List.in_map.
  - exfalso. apply Hnot. rewrite <- Hid. now apply List.in_map.
Qed.

(** Failing runs of [storeWithdrawal] return the state they were given. *)
Lemma storeWithdrawal_throw_keeps_state e uid cur chain amount to st err st' :
  storeWithdrawal e uid cur chain amount to st = (Throw err, st') -> st' = st.
Proof.
  unfold storeWithdrawal.
  destruct (String.eqb chain ""); [intros [= _ <-]; reflexivity|].
  destruct (if isUtxoChain chain then None else validateAddress e to chain);
    [intros [= _ <-]; reflexivity|].
  destruct (findUserWallet (wallets st) uid cur) as [w|]; [|intros [= _ <-]; reflexivity].
  destruct (getEcosystemToken e chain cur) as [tok|]; [|intros [= _ <-]; reflexivity].
  destruct (match countDecimals amount with Some a => _ | None => _ end);
    [intros [= _ <-]; reflexivity|].
  destruct (chainFees e w chain to (to_Q amount)) as [[act est]|err'];
    [|intros [= _ <-]; reflexivity].
  destruct (Qltb _ _); [intros [= _ <-]; reflexivity|].
  simpl. intros H. discriminate H.
Qed.

Lemma decrement_keeps_nonneg (w : wallet) chain (total : Q) st :
  List.NoDup (List.map id (wallets st)) -> In w (wallets st) ->
  (total <= balance w)%Q ->
  List.Forall (fun x => (0 <= balance x)%Q) (wallets st) ->
  List.Forall (fun x => (0 <= balance x)%Q)
    (wallets (decrementWalletBalance w chain total st)).
Proof.
  intros Hnd Hin Hle Hall. unfold decrementWalletBalance. simpl.
  rewrite List.Forall_forall in *. intros y Hy.
  apply List.in_map_iff in Hy. destruct Hy as [x [<- Hx]].
  destruct (String.eqb (id x) (id w)) eqn:E.
  - apply String.eqb_eq in E. rewrite (unique_id _ _ _ Hnd Hx Hin E). simpl.
    unfold Qminus. now apply Qle_minus_iff in Hle.
  - now apply Hall.
Qed.




(** The two amounts named in the specification: 1.123456789 is rejected
    on a token of precision 8 and the state is untouched; 1.12345678 passes
    the precision check. *)
Example precision_examples :
  let st := mkState [sampleWallet "w1" "u1" "bc1-user1" 100 0] [] [] in
  storeWithdrawal sampleEnv "u1" "BTC" "BTC"
      (mkNum [1;1;2;3;4;5;6;7;8;9]%nat 1) "bc1-external" st =
    (Throw (TooManyDecimals "BTC" "BTC" 8 (Some 9)), st) /\
  countDecimals (mkNum [1;1;2;3;4;5;6;7;8]%nat 1) = Some 8 /\
  (exists r st',
     storeWithdrawal sampleEnv "u1" "BTC" "BTC"
       (mkNum [1;1;2;3;4;5;6;7;8]%nat 1) "bc1-external" st = (Ok r, st')).
Proof.
  split; [vm_compute; reflexivity|]. split; [vm_compute; reflexivity|].
  eexists. eexists. reflexivity.
Qed.

(** C5: [countDecimals] undercounts an amount that prints in exponent
    notation with more than one digit.  The amount 1.23e-7 (0.000000123)
    has nine decimal places, is counted as seven, and so passes the
    precision check of a token of precision 8: the withdrawal is accepted
    and debited. *)
Theorem countDecimals_ignores_mantissa :
  let amount := mkNum [1;2;3]%nat (-6) in
  let st := mkState [sampleWallet "w1" "u1" "bc1-user1" 100 0] [] [] in
  wf amount /\
  toString amount = "1.23e-7" /\
  decimal_places amount = 9 /\
  maxPrecisionOf sampleToken = 8 /\
  countDecimals amount = Some 7 /\
  exists tx st',
    storeWithdrawal sampleEnv "u1" "BTC" "BTC" amount "bc1-external" st =
      (Ok (WithdrawalSubmitted tx (100 - (to_Q amount + (0 + 0 + 0)))%Q "BTC" "BTC"), st') /\
    transactions st' = [tx] /\ queue st' = [txId tx].
Proof.
  intros amount st.
  split. { unfold wf; simpl. repeat split; try discriminate; try lia.
           repeat constructor. }
  split; [vm_compute; reflexivity|].
  split; [reflexivity|]. split; [reflexivity|].
  split; [vm_compute; reflexivity|].
  eexists. eexists. split; [reflexivity|]. split; reflexivity.
Qed.

(** Outside exponent notation the precision check does what it is meant
    to do: a well-formed amount with more decimal places than the token
    allows is rejected and the state is untouched. *)
Lemma precision_exceeded_rejected e uid cur chain amount to st w tok :
  wf amount -> -6 < pt amount ->
  chain <> "" ->
  (if isUtxoChain chain then None else validateAddress e to chain) = None ->
  findUserWallet (wallets st) uid cur = Some w ->
  getEcosystemToken e chain cur = Some tok ->
  maxPrecisionOf tok < decimal_places amount ->
  storeWithdrawal e uid cur chain amount to st =
    (Throw (TooManyDecimals cur chain (maxPrecisionOf tok)
              (Some (decimal_places amount))), st).
Proof.
  intros Hwf Hpt Hc Hv Hw Ht Hlt. unfold storeWithdrawal.
  apply String.eqb_neq in Hc. rewrite Hc, Hv, Hw, Ht.
  rewrite (JsNumberFacts.countDecimals_plain amount Hwf Hpt).
  apply Z.ltb_lt in Hlt. rewrite Hlt. reflexivity.
Qed.

Lemma findWalletByAddress_internal (ws : list wallet) (a : string) :
  (exists w c, In w ws /\ type w = "ECO" /\ In (c, a) (address w)) ->
  exists rw c, findWalletByAddress ws a = Some rw /\
               In rw ws /\ type rw = "ECO" /\ In (c, a) (address rw).
Proof.
  induction ws as [|x ws IH]; intros [w [c [Hin [Hty Ha]]]]; [destruct Hin|].
  simpl.
  destruct (String.eqb (type x) "ECO" &&
            existsb (fun ca => String.eqb (snd ca) a) (address x)) eqn:E.
  - apply andb_true_iff in E. destruct E as [E1 E2].
    apply String.eqb_eq in E1. apply List.existsb_exists in E2.
    destruct E2 as [[c' a'] [Hc' Heq]]. simpl in Heq. apply String.eqb_eq in Heq.
    subst a'. exists x, c'. simpl. auto.
  - destruct Hin as [->|Hin].
    + exfalso. apply andb_false_iff in E. destruct E as [E|E].
      * apply String.eqb_neq in E. contradiction.
      * assert (existsb (fun ca => String.eqb (snd ca) a) (address w) = true) as Ht.
        { apply List.existsb_exists. exists (c, a). split; [exact Ha|].
          simpl. apply String.eqb_refl. }
        congruence.
    + destruct IH as [rw [c' [Hf [Hin' [Hty' Ha']]]]]; [eauto|].
      exists rw, c'. simpl. auto.
Qed.

(** C9: when the destination address is an address, on any chain, of some
    internal ECO wallet, the handler returns exactly what
    [processInternalTransfer] returns for the sender and the owner of such
    a wallet (its error passing through the [catch] block): nothing of
    [storeWithdrawal] runs, so the outcome does not depend on the token,
    fee, address-validation or chain-service collaborators. *)
Theorem internal_address_is_a_transfer e req st uid :
  user req = Some uid ->
  reqChain req <> "" ->
  (exists w c, In w (wallets st) /\ type w = "ECO" /\
               In (c, reqToAddress req) (address w)) ->
  exists rw c,
    In rw (wallets st) /\ type rw = "ECO" /\ In (c, reqToAddress req) (address rw) /\
    (forall e',
       processInternalTransfer e' = processInternalTransfer e ->
       withdrawFunds e' req st =
         (match fst (processInternalTransfer e uid (userId rw) (reqCurrency req)
                       (reqChain req) (reqAmount req) st) with
          | Ok resp => inr resp
          | Throw err => inl (rethrow err)
          end,
          snd (processInternalTransfer e uid (userId rw) (reqCurrency req)
                 (reqChain req) (reqAmount req) st))).
Proof.
  intros Hu Hc Hint.
  destruct (findWalletByAddress_internal _ _ Hint) as [rw [c [Hf [Hin [Hty Ha]]]]].
  exists rw, c. repeat split; auto.
  intros e' He'. unfold withdrawFunds. rewrite Hu.
  apply String.eqb_neq in Hc. rewrite Hc, Hf, He'.
  destruct (processInternalTransfer e uid (userId rw) (reqCurrency req)
              (reqChain req) (reqAmount req) st) as [[resp|err] st']; reflexivity.
Qed.

Lemma internal_address_is_a_transfer_witness :
  let st := mkState [sampleWallet "w1" "u1" "bc1-user1" 100 0;
                     sampleWallet "w2" "u2" "bc1-user2" 0 0] [] [] in
  let req := mkRequest (Some "u1") "BTC" "BTC" (mkNum [6%nat] 2) "bc1-user2" in
  exists rw c,
    In rw (wallets st) /\ type rw = "ECO" /\ In (c, reqToAddress req) (address rw) /\
    (forall e',
       processInternalTransfer e' = processInternalTransfer sampleEnv ->
       withdrawFunds e' req st =
         (match fst (processInternalTransfer sampleEnv "u1" (userId rw) (reqCurrency req)
                       (reqChain req) (reqAmount req) st) with
          | Ok resp => inr resp
          | Throw err => inl (rethrow err)
          end,
          snd (processInternalTransfer sampleEnv "u1" (userId rw) (reqCurrency req)
                 (reqChain req) (reqAmount req) st))).
Proof.
  intros st req.
  apply (internal_address_is_a_transfer sampleEnv req st "u1").
  - reflexivity.
  - discriminate.
  - exists (sampleWallet "w2" "u2" "bc1-user2" 0 0), "BTC".
    simpl. repeat split; auto.
Defined.

End WithdrawFacts.

(** ** Deposit monitor *)

Module MonitorFacts.
Import Monitor.

Section WithOptions.

Variable satoshiToStandardUnit : Z -> string -> Q.
Variable opts : UTXOOptions.

Local Abbreviation processTx := (processTx satoshiToStandardUnit opts).
Local Abbreviation processAll := (processAll satoshiToStandardUnit opts).
Local Abbreviation pollBody := (pollBody satoshiToStandardUnit opts).
Local Abbreviation pollDeposits := (pollDeposits satoshiToStandardUnit opts).
Local Abbreviation watchDeposits := (watchDeposits satoshiToStandardUnit opts).
Local Abbreviation step := (step satoshiToStandardUnit opts).
Local Abbreviation run := (run satoshiToStandardUnit opts).
Local Abbreviation pollLoop := (pollLoop satoshiToStandardUnit opts).
Local Abbreviation allFail := (allFail satoshiToStandardUnit opts).
Local Abbreviation cycleFails := (cycleFails satoshiToStandardUnit opts).

Lemma sameControl_refl s : sameControl s s.
Proof. unfold sameControl; tauto. Qed.

Lemma sameControl_trans s1 s2 s3 :
  sameControl s1 s2 -> sameControl s2 s3 -> sameControl s1 s3.
Proof. unfold sameControl; intuition congruence. Qed.

Lemma processTx_control s entry : sameControl s (snd (processTx s entry)).
Proof.
  destruct s as [m w], entry as [tx ans]. unfold Monitor.processTx.
  repeat (case_match; simpl; try apply sameControl_refl);
    unfold sameControl; simpl; try tauto.
  all: match goal with
       | H : storeAndBroadcastTransaction _ _ _ = _ |- _ =>
           unfold storeAndBroadcastTransaction in H;
           destruct (store ans); inversion H; subst; simpl; tauto
       end.
Qed.

Lemma processAll_control txs s : sameControl s (snd (processAll txs s)).
Proof.
  revert s. induction txs as [|entry txs IH]; intros s; simpl.
  - apply sameControl_refl.
  - pose proof (processTx_control s entry) as H.
    destruct (processTx s entry) as [ok s1]. simpl in H.
    destruct ok; simpl; [|exact H].
    eapply sameControl_trans; [exact H | apply IH].
Qed.

Lemma pollBody_control s a :
  active (fst (snd (pollBody s a))) = active (fst s) /\
  intervalId (fst (snd (pollBody s a))) = intervalId (fst s) /\
  timers (snd (snd (pollBody s a))) = timers (snd s) /\
  nextTimer (snd (snd (pollBody s a))) = nextTimer (snd s) /\
  consecutiveErrors (fst (snd (pollBody s a))) =
    (if fst (pollBody s a) then 0 else consecutiveErrors (fst s)).
Proof.
  destruct s as [m w]. unfold Monitor.pollBody.
  destruct a as [| |txs]; simpl; try tauto.
  destruct txs as [|entry txs]; [simpl; tauto|].
  set (w1 := logEvent _ w).
  pose proof (processAll_control (entry :: txs) (m, w1)) as H.
  destruct (processAll (entry :: txs) (m, w1)) as [ok [m2 w2]].
  unfold sameControl in H; simpl in H.
  destruct ok; simpl; intuition.
Qed.

(** The delay of the timer set by a cycle, as a function of the error
    count the cycle ends with. *)
Lemma pollDeposits_schedules s a :
  active (fst s) = true ->
  consecutiveErrors (fst (pollDeposits s a)) < MAX_CONSECUTIVE_ERRORS ->
  active (fst (pollDeposits s a)) = true /\
  intervalId (fst (pollDeposits s a)) = Some (nextTimer (snd s)) /\
  timers (snd (pollDeposits s a)) =
    (timers (snd s) ++
      [(nextTimer (snd s), nextInterval (consecutiveErrors (fst (pollDeposits s a))))])%list /\
  nextTimer (snd (pollDeposits s a)) = S (nextTimer (snd s)) /\
  consecutiveErrors (fst (pollDeposits s a)) =
    (if fst (pollBody s a) then 0 else consecutiveErrors (fst s) + 1).
Proof.
  intros Hact. unfold Monitor.pollDeposits. rewrite Hact. simpl.
  pose proof (pollBody_control s a) as (Ha & Hi & Ht & Hn & He).
  destruct (pollBody s a) as [ok [m1 w1]]. simpl in *.
  rewrite Hact in Ha.
  destruct ok.
  - unfold scheduleNext. rewrite Ha. simpl. intros _.
    rewrite Ht, Hn, He. auto.
  - destruct (MAX_CONSECUTIVE_ERRORS <=? consecutiveErrors m1 + 1) eqn:Emax.
    + intros Hlt. exfalso. apply Z.leb_le in Emax.
      unfold stopPolling in Hlt. simpl in Hlt.
      destruct (intervalId m1); simpl in Hlt; lia.
    + unfold scheduleNext. simpl. rewrite Ha. simpl. intros _.
      rewrite Ht, Hn, He. auto.
Qed.

(** C7 (amended): a cycle of an active monitor that ends with [n]
    consecutive errors, [1 <= n < 5], sets the next timer to
    [30000 * 2^(n-1)] ms (30 s, 60 s, 120 s, 240 s), which is below the cap
    of 300000 ms; a cycle that ends with no error sets it to 30000 ms. *)
Theorem backoff_delay s a n :
  active (fst s) = true ->
  consecutiveErrors (fst (pollDeposits s a)) = n ->
  0 <= n < 5 ->
  timers (snd (pollDeposits s a)) =
    (timers (snd s) ++
      [(nextTimer (snd s),
        if n =? 0 then 30000 else Z.min (30000 * 2 ^ (n - 1)) 300000)])%list /\
  (1 <= n -> Z.min (30000 * 2 ^ (n - 1)) 300000 = 30000 * 2 ^ (n - 1)).
Proof.
  intros Hact Hn Hr.
  destruct (pollDeposits_schedules s a Hact) as (_ & _ & Ht & _).
  { rewrite Hn. unfold MAX_CONSECUTIVE_ERRORS. lia. }
  rewrite Hn in Ht. rewrite Ht. clear Ht Hn. split.
  - unfold nextInterval, POLLING_INTERVAL.
    destruct (n =? 0) eqn:E0.
    + apply Z.eqb_eq in E0. subst n. reflexivity.
    + apply Z.eqb_neq in E0.
      replace (0 <? n) with true by (symmetry; apply Z.ltb_lt; lia).
      reflexivity.
  - intros H1.
    assert (n = 1 \/ n = 2 \/ n = 3 \/ n = 4) as [ -> | [ -> | [ -> | -> ] ] ] by lia;
      reflexivity.
Qed.

(** *** Fail-stop *)

Lemma failing_cycle s a :
  active (fst s) = true ->
  timers (snd s) = [] ->
  cycleFails s a = true ->
  consecutiveErrors (fst (pollDeposits s a)) = consecutiveErrors (fst s) + 1 /\
  (5 <= consecutiveErrors (fst s) + 1 -> stopped (pollDeposits s a)) /\
  (consecutiveErrors (fst s) + 1 < 5 ->
   exists s2, timerDue (pollDeposits s a) = Some s2 /\
              active (fst s2) = true /\ timers (snd s2) = [] /\
              consecutiveErrors (fst s2) = consecutiveErrors (fst s) + 1).
Proof.
  intros Hact Htm Hfail.
  unfold Monitor.cycleFails in Hfail. rewrite Hact in Hfail. simpl in Hfail.
  apply negb_true_iff in Hfail.
  pose proof (pollBody_control s a) as (Ha & Hi & Ht & Hn & He).
  unfold Monitor.pollDeposits. rewrite Hact. simpl.
  destruct (pollBody s a) as [ok [m1 w1]]. simpl in *. subst ok.
  rewrite Hact in Ha. rewrite Htm in Ht.
  destruct w1 as [rows tm nt tr]. simpl in Ht, Hn. subst tm nt.
  unfold MAX_CONSECUTIVE_ERRORS.
  destruct (5 <=? consecutiveErrors m1 + 1) eqn:Emax.
  - apply Z.leb_le in Emax. unfold stopPolling, stopped. simpl.
    destruct (intervalId m1) as [t|]; simpl;
      (split; [lia|]); (split; [auto|lia]).
  - apply Z.leb_gt in Emax. unfold scheduleNext. simpl. rewrite Ha. simpl.
    split; [lia|]. split; [lia|]. intros _.
    unfold timerDue, isPending, clearTimeout. simpl.
    rewrite Nat.eqb_refl. simpl.
    eexists. split; [reflexivity|]. simpl. repeat split; auto; lia.
Qed.

Lemma failing_loop (answers : list fetchAnswer) :
  forall s,
    active (fst s) = true ->
    timers (snd s) = [] ->
    0 <= consecutiveErrors (fst s) ->
    Z.of_nat (List.length answers) = 5 - consecutiveErrors (fst s) ->
    answers <> [] ->
    allFail answers s = true ->
    stopped (pollLoop answers s) /\
    consecutiveErrors (fst (pollLoop answers s)) = 5.
Proof.
  induction answers as [|a rest IH]; intros s Hact Htm Hk Hlen Hne Hall;
    [congruence|].
  simpl in Hall. apply andb_true_iff in Hall. destruct Hall as [Hfail Hrest].
  destruct (failing_cycle s a Hact Htm Hfail) as (He & Hstop & Hgo).
  destruct rest as [|a2 rest].
  - simpl in *. split; [apply Hstop|]; lia.
  - destruct Hgo as [s2 (Hdue & Hact2 & Htm2 & He2)].
    { simpl List.length in Hlen. lia. }
    change (pollLoop (a :: a2 :: rest) s)
      with (match timerDue (pollDeposits s a) with
            | Some s2 => pollLoop (a2 :: rest) s2
            | None => pollDeposits s a
            end).
    rewrite Hdue in Hrest |- *.
    apply IH; auto; try discriminate; try lia.
    rewrite He2. simpl List.length in *. lia.
Qed.

Lemma stopped_inert s act :
  stopped s -> isRestart act = false -> step s act = s.
Proof.
  intros (Ha & Hi & Ht) Hr. destruct s as [m w]. simpl in *.
  destruct act as [t a|a| |a]; simpl in *; try discriminate.
  - unfold isPending. rewrite Ht. reflexivity.
  - unfold Monitor.watchDeposits. simpl. rewrite Ha. reflexivity.
  - destruct m as [act i e p l]. simpl in *. subst. reflexivity.
Qed.

Lemma stopped_run acts :
  forall s, stopped s ->
    forallb (fun act => negb (isRestart act)) acts = true -> run acts s = s.
Proof.
  induction acts as [|act acts IH]; intros s Hs Hall; [reflexivity|].
  simpl in Hall. apply andb_true_iff in Hall. destruct Hall as [H1 H2].
  apply negb_true_iff in H1.
  unfold Monitor.run. simpl. rewrite (stopped_inert s act Hs H1).
  apply (IH s Hs H2).
Qed.


(** *** Pending broadcasts *)

Lemma pendingBroadcasts_app h (l1 l2 : list event) :
  pendingBroadcasts h (l1 ++ l2)%list =
  (pendingBroadcasts h l1 ++ pendingBroadcasts h l2)%list.
Proof. unfold pendingBroadcasts. apply List.flat_map_app. Qed.

Lemma pending_iteration m w tx ans :
  hash tx ∉ processedTxHashes m ->
  findThrows ans = false ->
  findOne (db w) (hash tx) (walletId opts) = None ->
  default 0 (confirmations tx) < requiredConfirmations (chain opts) ->
  processTx (m, w) (tx, ans) =
    if decide (lastBroadcastedConfirmations m !! hash tx =
               Some (default 0 (confirmations tx)))
    then (true, (m, w))
    else
      let w1 :=
        logEvent
          (PendingBroadcast
             (mkPending (walletId opts) (chain opts) (hash tx) (address opts)
                (satoshiToStandardUnit (default 0 (value tx)) (chain opts))
                (default 0 (confirmations tx)) (requiredConfirmations (chain opts)))) w in
      if broadcastThrows ans then (false, (m, w1))
      else (true, (setLastBroadcast (hash tx) (default 0 (confirmations tx)) m, w1)).
Proof.
  intros Hnp Hft Hfo Hlt. unfold Monitor.processTx.
  rewrite decide_False by exact Hnp. rewrite Hft, Hfo.
  apply Z.ltb_lt in Hlt. rewrite Hlt.
  destruct (lastBroadcastedConfirmations m !! hash tx) as [l|] eqn:El.
  - destruct (l =? default 0 (confirmations tx)) eqn:E.
    + apply Z.eqb_eq in E. subst l. simpl. rewrite decide_True by reflexivity.
      reflexivity.
    + apply Z.eqb_neq in E. simpl.
      rewrite decide_False by congruence. reflexivity.
  - rewrite decide_False by discriminate. reflexivity.
Qed.

Lemma pending_cycle h v ans c s :
  watching opts h s ->
  findThrows ans = false ->
  broadcastThrows ans = false ->
  c < requiredConfirmations (chain opts) ->
  exists s2,
    timerDue (pollDeposits s (sighting h v ans c)) = Some s2 /\
    watching opts h s2 /\
    lastBroadcastedConfirmations (fst s2) !! h = Some c /\
    trace (snd s2) = trace (snd (pollDeposits s (sighting h v ans c))) /\
    pendingBroadcasts h (trace (snd (pollDeposits s (sighting h v ans c)))) =
      (pendingBroadcasts h (trace (snd s)) ++
       changes (lastBroadcastedConfirmations (fst s) !! h) [c])%list.
Proof.
  destruct s as [m w]. intros (Hact & Hnp & Hfo) Hft Hbt Hlt. simpl in *.
  unfold Monitor.pollDeposits, Monitor.pollBody, sighting. simpl fst. rewrite Hact.
  cbn [negb Monitor.processAll].
  rewrite pending_iteration; simpl; auto.
  unfold changes.
  destruct (decide (lastBroadcastedConfirmations m !! h = Some c)) as [El|El].
  - unfold scheduleNext. simpl. rewrite Hact.
    unfold timerDue, isPending, setTimeout, clearTimeout. simpl.
    rewrite List.existsb_app. simpl. rewrite Nat.eqb_refl, orb_true_r.
    eexists. split; [reflexivity|]. simpl.
    unfold watching. simpl. repeat split; auto.
    rewrite pendingBroadcasts_app. simpl. rewrite !List.app_nil_r. reflexivity.
  - rewrite Hbt. unfold scheduleNext. simpl. rewrite Hact.
    unfold timerDue, isPending, setTimeout, clearTimeout. simpl.
    rewrite List.existsb_app. simpl. rewrite Nat.eqb_refl, orb_true_r.
    eexists. split; [reflexivity|]. simpl.
    unfold watching. simpl. repeat split; auto.
    + apply lookup_insert_eq.
    + rewrite !pendingBroadcasts_app. simpl. rewrite String.eqb_refl.
      rewrite List.app_nil_r. reflexivity.
Qed.

(** Over any run of poll cycles that each see [h] below the threshold,
    the pending broadcasts are exactly the changes of the count. *)
Lemma pending_loop h v ans (cs : list Z) :
  forall s,
    watching opts h s ->
    findThrows ans = false ->
    broadcastThrows ans = false ->
    List.Forall (fun c => c < requiredConfirmations (chain opts)) cs ->
    pendingBroadcasts h (trace (snd (pollLoop (List.map (sighting h v ans) cs) s))) =
      (pendingBroadcasts h (trace (snd s)) ++
       changes (lastBroadcastedConfirmations (fst s) !! h) cs)%list.
Proof.
  induction cs as [|c cs IH]; intros s Hw Hft Hbt Hall.
  - simpl. now rewrite List.app_nil_r.
  - inversion Hall as [|? ? Hc Hcs]; subst.
    destruct (pending_cycle h v ans c s Hw Hft Hbt Hc)
      as [s2 (Hdue & Hw2 & Hl2 & Ht2 & Hp)].
    destruct cs as [|c2 cs].
    + simpl List.map. cbn [Monitor.pollLoop]. exact Hp.
    + change (pollLoop (List.map (sighting h v ans) (c :: c2 :: cs)) s)
        with (match timerDue (pollDeposits s (sighting h v ans c)) with
              | Some s2 => pollLoop (List.map (sighting h v ans) (c2 :: cs)) s2
              | None => pollDeposits s (sighting h v ans c)
              end).
      rewrite Hdue. rewrite (IH s2 Hw2 Hft Hbt Hcs).
      rewrite Ht2, Hp, Hl2. rewrite <- List.app_assoc. f_equal.
      simpl. destruct (decide (lastBroadcastedConfirmations (fst s) !! h = Some c));
        reflexivity.
Qed.

(** C3: for a transaction below the confirmation threshold that is
    neither processed nor stored, an iteration sends the pending broadcast
    exactly when the fetched count differs from the value recorded in
    [lastBroadcastedConfirmations] (always on a first sighting); and over
    six poll cycles observing the counts 0,0,1,1,2,3 with a threshold
    above 3, starting with no recorded value, the broadcasts sent are the
    four for 0, 1, 2 and 3. *)
Theorem pending_broadcast_on_change m w tx ans :
  active m = true ->
  hash tx ∉ processedTxHashes m ->
  findOne (db w) (hash tx) (walletId opts) = None ->
  findThrows ans = false ->
  default 0 (confirmations tx) < requiredConfirmations (chain opts) ->
  let data :=
    mkPending (walletId opts) (chain opts) (hash tx) (address opts)
      (satoshiToStandardUnit (default 0 (value tx)) (chain opts))
      (default 0 (confirmations tx)) (requiredConfirmations (chain opts)) in
  (lastBroadcastedConfirmations m !! hash tx <> Some (default 0 (confirmations tx)) <->
   trace (snd (snd (processTx (m, w) (tx, ans)))) =
     (trace w ++ [PendingBroadcast data])%list) /\
  (lastBroadcastedConfirmations m !! hash tx = Some (default 0 (confirmations tx)) <->
   trace (snd (snd (processTx (m, w) (tx, ans)))) = trace w) /\
  (lastBroadcastedConfirmations m !! hash tx = None ->
   trace (snd (snd (processTx (m, w) (tx, ans)))) =
     (trace w ++ [PendingBroadcast data])%list) /\
  (3 < requiredConfirmations (chain opts) ->
   broadcastThrows ans = false ->
   lastBroadcastedConfirmations m !! hash tx = None ->
   pendingBroadcasts (hash tx)
     (trace (snd (pollLoop (List.map (sighting (hash tx) (value tx) ans)
                              [0; 0; 1; 1; 2; 3]) (m, w)))) =
     (pendingBroadcasts (hash tx) (trace w) ++ [0; 1; 2; 3])%list).
Proof.
  intros Hact Hnp Hfo Hft Hlt data.
  assert (3 < requiredConfirmations (chain opts) ->
          broadcastThrows ans = false ->
          lastBroadcastedConfirmations m !! hash tx = None ->
          pendingBroadcasts (hash tx)
            (trace (snd (pollLoop (List.map (sighting (hash tx) (value tx) ans)
                                     [0; 0; 1; 1; 2; 3]) (m, w)))) =
          (pendingBroadcasts (hash tx) (trace w) ++ [0; 1; 2; 3])%list) as Hsix.
  { intros H3 Hbt Hnone. rewrite pending_loop; auto.
    - simpl. rewrite Hnone. reflexivity.
    - unfold watching. simpl. auto.
    - repeat constructor; lia. }
  rewrite pending_iteration by auto. fold data.
  assert (forall l : list event, l <> (l ++ [PendingBroadcast data])%list) as Hneq.
  { intros l Heq. apply (f_equal (@List.length _)) in Heq.
    rewrite List.length_app in Heq. simpl in Heq. lia. }
  destruct (decide (lastBroadcastedConfirmations m !! hash tx =
                    Some (default 0 (confirmations tx)))) as [E|E]; simpl.
  - split; [|split; [|split]]; [| | |exact Hsix].
    + split; [contradiction|]. intros Heq. exfalso. exact (Hneq _ Heq).
    + tauto.
    + intros Hn. rewrite Hn in E. discriminate.
  - destruct (broadcastThrows ans); simpl.
    all: split; [|split; [|split]]; [| | |exact Hsix].
    all: try tauto; try reflexivity.
    all: split; [contradiction|]; intros Heq; exfalso; symmetry in Heq;
      exact (Hneq _ Heq).
Qed.

(** *** At most one credit *)

Lemma credits_none rows h :
  findOne rows h (walletId opts) = None ->
  List.filter (fun r => String.eqb (trxId r) h && String.eqb (recWalletId r) (walletId opts))
    rows = [].
Proof.
  unfold findOne. induction rows as [|r rows IH]; simpl; [reflexivity|].
  destruct (String.eqb (trxId r) h && String.eqb (recWalletId r) (walletId opts));
    [discriminate | exact IH].
Qed.

(** An iteration leaves the table alone or appends one row for a hash
    that had none. *)
Lemma processTx_db s entry :
  db (snd (snd (processTx s entry))) = db (snd s) \/
  (findOne (db (snd s)) (hash (fst entry)) (walletId opts) = None /\
   exists amt,
     db (snd (snd (processTx s entry))) =
       (db (snd s) ++ [mkRecord (hash (fst entry)) (walletId opts) amt])%list).
Proof.
  destruct s as [m w], entry as [tx ans]. unfold Monitor.processTx. simpl.
  destruct (decide (hash tx ∈ processedTxHashes m)); [left; reflexivity|].
  destruct (findThrows ans); [left; reflexivity|].
  destruct (findOne (db w) (hash tx) (walletId opts)) eqn:Hfo; [left; reflexivity|].
  destruct (default 0 (confirmations tx) <? requiredConfirmations (chain opts)).
  - left. destruct (lastBroadcastedConfirmations m !! hash tx) as [l|];
      [destruct (negb (l =? default 0 (confirmations tx)))|];
      try reflexivity; destruct (broadcastThrows ans); reflexivity.
  - destruct (full ans) as [| |ftx]; try (left; reflexivity).
    unfold storeAndBroadcastTransaction.
    destruct (store ans); simpl.
    + right. split; [reflexivity|]. eexists. reflexivity.
    + left. reflexivity.
    + right. split; [reflexivity|]. eexists. reflexivity.
Qed.

Lemma processTx_credits s entry h :
  (credits opts h (snd s) <= 1)%nat ->
  (credits opts h (snd (snd (processTx s entry))) <= 1)%nat.
Proof.
  intros H. unfold credits in *.
  destruct (processTx_db s entry) as [-> | [Hnone [amt ->]]]; [exact H|].
  rewrite List.filter_app, List.length_app. simpl.
  destruct (String.eqb (hash (fst entry)) h) eqn:E; simpl.
  - apply String.eqb_eq in E. subst h.
    rewrite (credits_none _ _ Hnone).
    destruct (String.eqb (walletId opts) (walletId opts)); simpl; lia.
  - simpl. lia.
Qed.

Lemma processAll_credits txs h :
  forall s,
    (credits opts h (snd s) <= 1)%nat ->
    (credits opts h (snd (snd (processAll txs s))) <= 1)%nat.
Proof.
  induction txs as [|entry txs IH]; intros s H; simpl; [exact H|].
  pose proof (processTx_credits s entry h H) as H1.
  destruct (processTx s entry) as [ok s1]. simpl in H1.
  destruct ok; simpl; auto.
Qed.

Lemma pollDeposits_credits s a h :
  (credits opts h (snd s) <= 1)%nat ->
  (credits opts h (snd (pollDeposits s a)) <= 1)%nat.
Proof.
  intros H. unfold Monitor.pollDeposits.
  destruct (negb (active (fst s))); [exact H|].
  assert (credits opts h (snd (snd (pollBody s a))) <= 1)%nat as Hb.
  { destruct s as [m w]. unfold Monitor.pollBody.
    destruct a as [| |txs]; try exact H.
    destruct txs as [|entry txs]; [exact H|].
    set (w1 := logEvent _ w).
    pose proof (processAll_credits (entry :: txs) h (m, w1) H) as H1.
    destruct (processAll (entry :: txs) (m, w1)) as [ok [m2 w2]].
    destruct ok; exact H1. }
  destruct (pollBody s a) as [ok [m1 w1]]. simpl in Hb.
  assert (forall s0, credits opts h (snd (scheduleNext s0)) = credits opts h (snd s0))
    as Hsched.
  { intros [m0 w0]. unfold scheduleNext. destruct (active m0); reflexivity. }
  destruct ok; [rewrite Hsched; exact Hb|].
  destruct (MAX_CONSECUTIVE_ERRORS <=? _); [|rewrite Hsched; exact Hb].
  unfold stopPolling. simpl. destruct (intervalId m1); exact Hb.
Qed.

Lemma step_credits s act h :
  (credits opts h (snd s) <= 1)%nat ->
  (credits opts h (snd (step s act)) <= 1)%nat.
Proof.
  intros H. destruct act as [t a|a| |a]; simpl.
  - destruct (isPending t (snd s)); [|exact H].
    apply pollDeposits_credits. exact H.
  - unfold Monitor.watchDeposits. destruct (negb (active (fst s))); [exact H|].
    apply pollDeposits_credits. exact H.
  - destruct s as [m w]. unfold stopPolling. simpl.
    destruct (intervalId m); exact H.
  - unfold Monitor.watchDeposits. simpl.
    apply pollDeposits_credits. exact H.
Qed.

(** C1: a transaction whose hash is in [processedTxHashes], or for which
    a row with this wallet id is stored, is skipped: the iteration leaves
    the world as it was (no broadcast, no row, no credit).  Hence, over
    any sequence of timer firings, calls and process restarts, a hash that
    has at most one stored credit keeps at most one. *)
Theorem at_most_one_credit s entry h acts :
  ((hash (fst entry) ∈ processedTxHashes (fst s) \/
    findOne (db (snd s)) (hash (fst entry)) (walletId opts) <> None) ->
   snd (snd (processTx s entry)) = snd s) /\
  ((credits opts h (snd s) <= 1)%nat ->
   (credits opts h (snd (run acts s)) <= 1)%nat).
Proof.
  split.
  - destruct s as [m w], entry as [tx ans]. simpl. intros Hskip.
    unfold Monitor.processTx.
    destruct (decide (hash tx ∈ processedTxHashes m)) as [Hin|Hnin]; [reflexivity|].
    destruct (findThrows ans); [reflexivity|].
    destruct (findOne (db w) (hash tx) (walletId opts)); [reflexivity|].
    destruct Hskip as [Hin|Hf]; [contradiction | congruence].
  - revert s. unfold Monitor.run.
    induction acts as [|act acts IH]; intros s H; simpl; [exact H|].
    apply IH. apply step_credits. exact H.
Qed.

End WithOptions.


Lemma pending_broadcast_on_change_witness :
  pendingBroadcasts "tx1"
    (trace (snd (pollLoop sampleUnits sampleOptions
                   (List.map (sighting "tx1" (Some 5000) okAnswers) [0; 0; 1; 1; 2; 3])
                   (newMonitor, emptyWorld)))) =
  [0; 1; 2; 3].
Proof.
  apply (pending_broadcast_on_change sampleUnits sampleOptions newMonitor emptyWorld
           (mkObserved "tx1" (Some 0) (Some 5000)) okAnswers).
  - reflexivity.
  - apply not_elem_of_empty.
  - reflexivity.
  - reflexivity.
  - reflexivity.
  - reflexivity.
  - reflexivity.
  - reflexivity.
Defined.

(** A confirmed deposit seen in a first cycle, again when the timer fires,
    and again after a restart is credited once. *)
Example credited_once :
  let seen := sighting "tx1" (Some 5000) okAnswers 6 in
  let acts := [CallWatchDeposits seen; TimerFires 0 seen; Restart seen; TimerFires 2 seen] in
  credits sampleOptions "tx1"
    (snd (run sampleUnits sampleOptions acts (newMonitor, emptyWorld))) = 1%nat /\
  List.length
    (List.filter (fun ev => match ev with DepositStore _ => true | _ => false end)
       (trace (snd (run sampleUnits sampleOptions acts (newMonitor, emptyWorld))))) = 1%nat /\
  List.length
    (List.filter (fun ev => match ev with FetchTransactions _ _ => true | _ => false end)
       (trace (snd (run sampleUnits sampleOptions acts (newMonitor, emptyWorld))))) = 4%nat.
Proof. vm_compute. auto. Qed.

Lemma at_most_one_credit_witness :
  let seen := sighting "tx1" (Some 5000) okAnswers 6 in
  let stored := mkWorld [mkRecord "tx1" "w1" (5000 # 100000000)] [] 0 [] in
  snd (snd (processTx sampleUnits sampleOptions (newMonitor, stored)
              (mkObserved "tx1" (Some 6) (Some 5000), okAnswers))) = stored /\
  (credits sampleOptions "tx1"
     (snd (run sampleUnits sampleOptions [Restart seen; TimerFires 0 seen]
             (newMonitor, stored))) <= 1)%nat.
Proof.
  intros seen stored.
  pose proof (at_most_one_credit sampleUnits sampleOptions (newMonitor, stored)
                (mkObserved "tx1" (Some 6) (Some 5000), okAnswers) "tx1"
                [Restart seen; TimerFires 0 seen]) as [Hskip Hcred].
  split.
  - apply Hskip. right. discriminate.
  - apply Hcred. vm_compute. lia.
Defined.

Lemma backoff_delay_witness :
  let s := (newMonitor, emptyWorld) in
  timers (snd (pollDeposits sampleUnits sampleOptions s FetchThrows)) =
    [(0%nat, 30000)] /\
  (1 <= 1 -> Z.min (30000 * 2 ^ (1 - 1)) 300000 = 30000 * 2 ^ (1 - 1)).
Proof.
  intros s.
  apply (backoff_delay sampleUnits sampleOptions s FetchThrows 1).
  - reflexivity.
  - reflexivity.
  - lia.
Defined.

(** C7, as stated, fails: after the first error the count is 1 and the
    next poll is set 30000 ms ahead, not [30000 * 2^1 = 60000] ms. *)
Lemma backoff_exponent_is_errors_minus_one :
  let s' := pollDeposits sampleUnits sampleOptions (newMonitor, emptyWorld) FetchThrows in
  consecutiveErrors (fst s') = 1 /\
  timers (snd s') = [(0%nat, 30000)] /\
  Z.min (POLLING_INTERVAL * 2 ^ consecutiveErrors (fst s')) 300000 = 60000 /\
  timers (snd s') <>
    [(0%nat, Z.min (POLLING_INTERVAL * 2 ^ consecutiveErrors (fst s')) 300000)].
Proof. repeat split. discriminate. Qed.

End MonitorFacts.

(** ** Explorer cache *)

Module TxCacheFacts.
Import TxCache.

(** Whole minutes below 30 means less than 30 minutes in milliseconds. *)
Lemma differenceInMinutes_fresh (now t : Z) :
  t <= now ->
  ((differenceInMinutes now t <? CACHE_EXPIRATION) = true <-> now - t < 1800000).
Proof.
  intros Hle. unfold differenceInMinutes, CACHE_EXPIRATION.
  rewrite Z.ltb_lt. rewrite Z.quot_div_nonneg by lia.
  split; intros H.
  - apply Z.nle_gt. intros Hge.
    assert (30 <= (now - t) / 60000) by (apply Z.div_le_lower_bound; lia). lia.
  - apply Z.div_lt_upper_bound; lia.
Qed.

(** After a fetch that went to the network at instant [t], a later call
    is served from the cache exactly during the next 30 seconds: the Redis
    key written by SETEX is gone after [CACHE_EXPIRATION] seconds, long
    before the 30 minutes tested by [getCachedData]. *)
Lemma cache_window address chain (t now : Z) parsed (r : gmap string redisEntry) :
  t <= now ->
  getCachedData now (cacheKey address chain)
    (redisSetex t (cacheKey address chain) CACHE_EXPIRATION (mkCache parsed t) r) =
  if now <? t + 30000 then Some parsed else None.
Proof.
  intros Hle. unfold getCachedData, redisGet, redisSetex.
  rewrite lookup_insert_eq. cbn [expiresAt payload stamp transactions].
  unfold CACHE_EXPIRATION at 1.
  replace (t + 30 * 1000) with (t + 30000) by lia.
  destruct (now <? t + 30000) eqn:E; [|reflexivity].
  apply Z.ltb_lt in E. cbn [payload stamp transactions].
  replace (differenceInMinutes now t <? CACHE_EXPIRATION) with true; [reflexivity|].
  symmetry. apply differenceInMinutes_fresh; lia.
Qed.

(** C8: the cache does not last 30 minutes.  A first fetch at instant 0
    goes to the explorer and caches its answer; a second fetch for the same
    address and chain 31 seconds later, well within 30 minutes, finds the
    key expired, calls the explorer again and returns the new answer; at
    29 seconds it would have been served from the cache. *)
Theorem cache_expires_after_thirty_seconds :
  let first := fetchEcosystemTransactions "ETH" "0xabc" 0 0
                 (UpstreamResult [sampleRaw "0x01"]) (mkState ∅ 0) in
  let hit := fetchEcosystemTransactions "ETH" "0xabc" 29000 29000
               (UpstreamResult []) (snd first) in
  let miss := fetchEcosystemTransactions "ETH" "0xabc" 31000 31000
                (UpstreamResult []) (snd first) in
  chainCache "ETH" = Some true /\
  fst first = ByExplorer (Some [parseTx (sampleRaw "0x01")]) /\
  networkCalls (snd first) = 1%nat /\
  fst hit = ByExplorer (Some [parseTx (sampleRaw "0x01")]) /\
  networkCalls (snd hit) = 1%nat /\
  differenceInMinutes 31000 0 = 0 /\
  fst miss = ByExplorer (Some []) /\
  networkCalls (snd miss) = 2%nat.
Proof. vm_compute. repeat split; reflexivity. Qed.

End TxCacheFacts.

(** ** Node-backed lookup *)

Module BtcNodeFacts.
Import BtcNode.

Lemma listtransactions_recent (older recent : list walletTx) :
  List.length recent = 100%nat ->
  listtransactions (older ++ recent)%list 100 0 = recent.
Proof.
  intros Hlen. unfold listtransactions. rewrite List.skipn_O.
  rewrite List.rev_app_distr.
  rewrite List.firstn_app.
  rewrite List.length_rev, Hlen. simpl.
  rewrite List.app_nil_r.
  rewrite List.firstn_all2 by (rewrite List.length_rev; lia).
  apply List.rev_involutive.
Qed.

(** C10: the lookup asks the wallet for its 100 most recent transactions
    and returns exactly those of them whose [address] is the queried one;
    when the wallet holds 100 or more, the answer does not depend on the
    older ones, and an older transaction that is not among the recent 100
    is not returned even if it pays the address. *)
Theorem getAddressTransactions_recent_only
    (history older recent : list walletTx) (a : string) (tx : walletTx) :
  getAddressTransactions None history a =
    inr (List.filter (addressIs a) (listtransactions history 100 0)) /\
  (In tx (List.filter (addressIs a) (listtransactions history 100 0)) <->
   In tx (listtransactions history 100 0) /\ address tx = Some a) /\
  (List.length recent = 100%nat ->
   getAddressTransactions None (older ++ recent)%list a =
     getAddressTransactions None recent a /\
   (In tx older -> ~ In tx recent ->
    forall txs,
      getAddressTransactions None (older ++ recent)%list a = inr txs -> ~ In tx txs)).
Proof.
  split; [reflexivity|]. split.
  - rewrite List.filter_In. unfold addressIs.
    destruct (address tx) as [b|].
    + rewrite String.eqb_eq. split; intros [H1 H2]; split; congruence.
    + split; intros [H1 H2]; discriminate.
  - intros Hlen. unfold getAddressTransactions, walletRpcCall.
    rewrite (listtransactions_recent older recent Hlen).
    pose proof (listtransactions_recent [] recent Hlen) as Hrecent.
    cbn [app] in Hrecent. rewrite Hrecent.
    split; [reflexivity|].
    intros _ Hnot txs [= <-] Hin.
    apply List.filter_In in Hin. tauto.
Qed.

Lemma getAddressTransactions_recent_only_witness :
  let recent := List.repeat (sampleTx "new" "bc1-other") 100 in
  let old := sampleTx "old" "bc1-watch" in
  getAddressTransactions None ([old] ++ recent)%list "bc1-watch" =
    getAddressTransactions None recent "bc1-watch" /\
  forall txs,
    getAddressTransactions None ([old] ++ recent)%list "bc1-watch" = inr txs ->
    ~ In old txs.
Proof.
  intros recent old.
  destruct (getAddressTransactions_recent_only [] [old] recent "bc1-watch" old)
    as (_ & _ & H).
  destruct (H eq_refl) as [H1 H2]. split; [exact H1|].
  apply H2.
  - left. reflexivity.
  - intros Hin. apply List.repeat_spec in Hin. discriminate Hin.
Defined.

End BtcNodeFacts.

(** ** Further properties of the printed form of numbers *)

Module JsNumberMore.
Import JsNumber JsNumberFacts.

Lemma digit_of_digit_char (d : nat) :
  (d < 10)%nat -> digit_of_char (digit_char d) = Some (Z.of_nat d).
Proof.
  intros Hd. unfold digit_of_char, digit_char.
  rewrite nat_ascii_embedding by lia.
  replace ((48 <=? 48 + d)%nat && (48 + d <=? 57)%nat) with true.
  - f_equal. lia.
  - symmetry. apply andb_true_iff. split; apply Nat.leb_le; lia.
Qed.

Lemma parse_digits_string (ds : list nat) :
  List.Forall (fun d => (d < 10)%nat) ds ->
  forall a,
    parse_digits (digits_string ds) (Some a) =
    Some (fold_left (fun acc d => 10 * acc + Z.of_nat d) ds a).
Proof.
  induction 1 as [|d ds Hd _ IH]; intros a; [reflexivity|].
  cbn [digits_string parse_digits fold_left].
  rewrite digit_of_digit_char by exact Hd. apply IH.
Qed.

(** Reading back a printed digit string gives its value. *)
Lemma parseInt_digits (ds : list nat) :
  ds <> [] -> List.Forall (fun d => (d < 10)%nat) ds ->
  parseInt (digits_string ds) = Some (sig_value ds).
Proof.
  intros Hne Hall. destruct ds as [|d ds]; [congruence|].
  inversion Hall as [|? ? Hd Hds]; subst.
  unfold parseInt, sig_value. cbn [digits_string parse_digits fold_left].
  rewrite digit_of_digit_char by exact Hd.
  apply parse_digits_string. exact Hds.
Qed.

Lemma nat_digits_fuel_spec (fuel : nat) :
  forall n acc,
    (n < fuel)%nat ->
    List.Forall (fun d => (d < 10)%nat) acc ->
    List.Forall (fun d => (d < 10)%nat) (nat_digits_fuel fuel n acc) /\
    nat_digits_fuel fuel n acc <> [] /\
    fold_left (fun acc d => 10 * acc + Z.of_nat d) (nat_digits_fuel fuel n acc) 0 =
    fold_left (fun acc d => 10 * acc + Z.of_nat d) acc (Z.of_nat n).
Proof.
  induction fuel as [|fuel IH]; intros n acc Hlt Hacc; [lia|].
  cbn [nat_digits_fuel]. destruct (n <? 10)%nat eqn:E.
  - apply Nat.ltb_lt in E. split; [constructor; assumption|].
    split; [discriminate|]. reflexivity.
  - apply Nat.ltb_ge in E.
    assert (n / 10 < fuel)%nat as Hdiv.
    { assert (n / 10 < n)%nat by (apply Nat.div_lt; lia). lia. }
    assert (n mod 10 < 10)%nat as Hmod by (apply Nat.mod_upper_bound; lia).
    destruct (IH (n / 10)%nat ((n mod 10)%nat :: acc) Hdiv) as (H1 & H2 & H3);
      [constructor; assumption|].
    split; [exact H1|]. split; [exact H2|].
    rewrite H3. cbn [fold_left]. f_equal.
    pose proof (Nat.div_mod_eq n 10). lia.
Qed.

Lemma parseInt_nat_digits (n : nat) :
  parseInt (digits_string (nat_digits n)) = Some (Z.of_nat n).
Proof.
  unfold nat_digits.
  destruct (nat_digits_fuel_spec (S n) n [] (Nat.lt_succ_diag_r n) (List.Forall_nil _))
    as (Hall & Hne & Hval).
  rewrite parseInt_digits by assumption.
  unfold sig_value. rewrite Hval. reflexivity.
Qed.

Lemma lacks_nat_digits c (n : nat) :
  nonDigit c = true -> lacks c (digits_string (nat_digits n)).
Proof.
  intros Hc. apply lacks_digits; [exact Hc|].
  unfold nat_digits.
  apply (nat_digits_fuel_spec (S n) n [] (Nat.lt_succ_diag_r n) (List.Forall_nil _)).
Qed.

Lemma index_found_pair (c d : ascii) (a b : string) :
  lacks c a ->
  String.index 0 (String c (String d "")) (a ++ String c (String d b))%string =
    Some (String.length a).
Proof.
  induction a as [|x a IH]; push_append.
  - intros _. destruct (ascii_dec c c) as [_|Hn]; [|contradiction].
    destruct (ascii_dec d d) as [_|Hn]; [|contradiction].
    destruct b; reflexivity.
  - intros [Hx Ha]. destruct (ascii_dec c x) as [->|_]; [contradiction|].
    now rewrite IH.
Qed.

Lemma index_found_exp (a b : string) :
  lacks "e" a ->
  String.index 0 "e-" (a ++ String "e" (String "-" b))%string = Some (String.length a).
Proof. apply index_found_pair. Qed.

Lemma substring_after_exp (a b : string) :
  String.substring (String.length a + 2) (String.length b)
    (a ++ String "e" (String "-" b))%string = b.
Proof.
  induction a as [|x a IH]; push_append; [apply substring_all | exact IH].
Qed.

(** Splitting at the only occurrence of "e-". *)
Lemma split_exp (a b : string) :
  lacks "e" a -> lacks "e" b ->
  split (a ++ String "e" (String "-" b))%string "e-" = [a; b].
Proof.
  intros Ha Hb. unfold split. rewrite length_append. simpl String.length.
  replace (S (String.length a + S (S (String.length b))))
    with (S (S (String.length a + S (String.length b)))) by lia.
  cbn [split_fuel]. rewrite (index_found_exp a b Ha).
  rewrite substring_left. simpl String.length.
  rewrite length_append. simpl String.length.
  replace (String.length a + S (S (String.length b)) - (String.length a + 2))%nat
    with (String.length b) by lia.
  rewrite substring_after_exp. rewrite (index_lacks "e" "-" b Hb). reflexivity.
Qed.

(** What [countDecimals] computes on a string "mantissa e- digits". *)
Lemma count_exponent (a : string) (m : nat) :
  lacks "e" a ->
  (if includes (a ++ String "e" (String "-" (digits_string (nat_digits m)))) "e-"
   then match split (a ++ String "e" (String "-" (digits_string (nat_digits m)))) "e-" with
        | _ :: exponent :: _ => parseInt exponent
        | _ => None
        end
   else match split (a ++ String "e" (String "-" (digits_string (nat_digits m)))) "." with
        | _ :: p1 :: _ => Some (Z.of_nat (String.length p1))
        | _ => Some 0
        end) = Some (Z.of_nat m).
Proof.
  intros Ha. unfold includes. rewrite index_found_exp by exact Ha.
  rewrite split_exp; [apply parseInt_nat_digits | exact Ha |].
  apply lacks_nat_digits. reflexivity.
Qed.

Lemma append_assoc (a b c : string) :
  ((a ++ b) ++ c)%string = (a ++ (b ++ c))%string.
Proof. induction a as [|x a IH]; push_append; congruence. Qed.

Lemma toString_exponent (d : nat) (rest : list nat) (n : Z) :
  n <= -6 ->
  toString (mkNum (d :: rest) n) =
    ((match rest with
      | [] => digits_string [d]
      | _ => digits_string [d] ++ String "." (digits_string rest)
      end) ++
     String "e" (String "-" (digits_string (nat_digits (Z.abs_nat (n - 1))))))%string.
Proof.
  intros Hn. unfold toString. cbn [sig pt].
  replace ((Z.of_nat (List.length (d :: rest)) <=? n) && (n <=? 21)) with false
    by (symmetry; apply andb_false_iff; left; apply Z.leb_gt;
        cbn [List.length]; lia).
  replace ((0 <? n) && (n <=? 21)) with false
    by (symmetry; apply andb_false_iff; left; apply Z.ltb_ge; lia).
  replace ((-6 <? n) && (n <=? 0)) with false
    by (symmetry; apply andb_false_iff; left; apply Z.ltb_ge; lia).
  replace (n - 1 <? 0) with true by (symmetry; apply Z.ltb_lt; lia).
  destruct rest as [|r rest]; [reflexivity|].
  rewrite append_assoc. reflexivity.
Qed.

(** For a well-formed amount below 10^-6, which JavaScript prints in
    exponent notation, [countDecimals] is the exponent [1 - pt]: it counts
    the places up to the first significant digit and none of the later
    ones, so it falls short of the number of decimal places by the number
    of digits after the first. *)
Theorem countDecimals_exponent (x : JsNum) :
  wf x -> sig x <> [] -> pt x <= -6 ->
  countDecimals x = Some (1 - pt x) /\
  decimal_places x = (1 - pt x) + (Z.of_nat (List.length (sig x)) - 1).
Proof.
  intros Hwf Hne Hpt. destruct x as [ds n]. cbn [sig pt] in *.
  destruct ds as [|d rest]; [congruence|].
  split.
  - unfold countDecimals.
    rewrite (isInteger_fraction _ Hwf) by (cbn [sig pt List.length]; auto; lia).
    rewrite toString_exponent by exact Hpt.
    unfold wf in Hwf. cbn [sig] in Hwf. destruct Hwf as (_ & _ & Hall & _).
    inversion Hall as [|? ? Hd Hrest]; subst.
    rewrite count_exponent.
    + f_equal. lia.
    + destruct rest as [|r rest].
      * apply lacks_digits; [reflexivity | exact Hall].
      * apply lacks_append.
        -- apply lacks_digits; [reflexivity | constructor; [exact Hd | constructor]].
        -- simpl. split; [discriminate|].
           apply (lacks_digits "e" (r :: rest)); [reflexivity | exact Hrest].
  - unfold decimal_places. cbn [sig pt]. cbn [List.length]. lia.
Qed.

Lemma countDecimals_exponent_witness :
  countDecimals (mkNum [4; 2; 5]%nat (-8)) = Some 9 /\
  decimal_places (mkNum [4; 2; 5]%nat (-8)) = 9 + (3 - 1).
Proof.
  apply (countDecimals_exponent (mkNum [4; 2; 5]%nat (-8))).
  - unfold wf. simpl. repeat split; try discriminate; try lia.
    repeat constructor.
  - discriminate.
  - simpl. lia.
Defined.

End JsNumberMore.

(** ** Further properties of the withdrawal handler *)

Module WithdrawMore.
Import JsNumber Withdraw WithdrawFacts.

Lemma precision_exceeded_rejected_witness :
  let st := mkState [sampleWallet "w1" "u1" "bc1-user1" 100 0] [] [] in
  let amount := mkNum [1; 0; 0; 0; 0; 0; 0; 0; 0; 1]%nat 1 in
  storeWithdrawal sampleEnv "u1" "BTC" "BTC" amount "bc1-external" st =
    (Throw (TooManyDecimals "BTC" "BTC" (maxPrecisionOf sampleToken)
              (Some (decimal_places amount))), st).
Proof.
  intros st amount.
  apply (precision_exceeded_rejected sampleEnv "u1" "BTC" "BTC" amount "bc1-external" st
           (sampleWallet "w1" "u1" "bc1-user1" 100 0) sampleToken).
  - unfold wf. simpl. repeat split; try discriminate; try lia.
    repeat (constructor; [lia|]). constructor.
  - simpl. lia.
  - discriminate.
  - reflexivity.
  - reflexivity.
  - reflexivity.
  - reflexivity.
Defined.

(** [storeWithdrawal] throws "Insufficient funds" while the [catch] block
    of the handler looks for the message "INSUFFICIENT_FUNDS": a withdrawal
    to an external address that the balance does not cover is answered with
    status 500 and the wrapped message, not with status 400, and the state
    is as before. *)
Theorem insufficient_funds_is_status_500 e req st uid :
  user req = Some uid ->
  reqChain req <> "" ->
  findWalletByAddress (wallets st) (reqToAddress req) = None ->
  fst (storeWithdrawal e uid (reqCurrency req) (reqChain req) (reqAmount req)
         (reqToAddress req) st) = Throw InsufficientFundsError ->
  withdrawFunds e req st =
    (inl (mkHttpError 500 "Failed to withdraw: Error: Insufficient funds"), st).
Proof.
  intros Hu Hc Hf Hs. unfold withdrawFunds. rewrite Hu.
  apply String.eqb_neq in Hc. rewrite Hc, Hf.
  destruct (storeWithdrawal e uid (reqCurrency req) (reqChain req) (reqAmount req)
              (reqToAddress req) st) as [r st'] eqn:E.
  simpl in Hs. subst r.
  apply storeWithdrawal_throw_keeps_state in E. subst st'. reflexivity.
Qed.

Lemma insufficient_funds_is_status_500_witness :
  let st := mkState [sampleWallet "w1" "u1" "bc1-user1" 50 0] [] [] in
  let req := mkRequest (Some "u1") "BTC" "BTC" (mkNum [6%nat] 2) "bc1-external" in
  withdrawFunds sampleEnv req st =
    (inl (mkHttpError 500 "Failed to withdraw: Error: Insufficient funds"), st).
Proof.
  intros st req.
  apply (insufficient_funds_is_status_500 sampleEnv req st "u1").
  - reflexivity.
  - discriminate.
  - reflexivity.
  - reflexivity.
Defined.





(** An address is treated as external exactly when no ECO wallet lists it
    on any chain; wallets of other types are never matched. *)
Theorem findWalletByAddress_none_iff (ws : list wallet) (a : string) :
  findWalletByAddress ws a = None <->
  (forall w c, In w ws -> type w = "ECO" -> ~ In (c, a) (address w)).
Proof.
  split.
  - intros Hnone w c Hin Hty Ha.
    destruct (findWalletByAddress_internal ws a) as [rw [c' [Hf _]]]; [eauto|].
    congruence.
  - induction ws as [|x ws IH]; intros Hall; [reflexivity|]. simpl.
    destruct (String.eqb (type x) "ECO" &&
              existsb (fun ca => String.eqb (snd ca) a) (address x)) eqn:E.
    + exfalso. apply andb_true_iff in E. destruct E as [E1 E2].
      apply String.eqb_eq in E1. apply List.existsb_exists in E2.
      destruct E2 as [[c a'] [Hc Heq]]. simpl in Heq. apply String.eqb_eq in Heq.
      subst a'. apply (Hall x c); simpl; auto.
    + apply IH. intros w c Hin. apply Hall. right. exact Hin.
Qed.

Lemma findWalletByAddress_none_iff_witness :
  findWalletByAddress
    [sampleWallet "w1" "u1" "bc1-user1" 100 0;
     mkWallet "w2" "u2" "BTC" "SPOT" 0 0 [("BTC", "bc1-spot")]] "bc1-spot" = None.
Proof.
  apply (proj2 (findWalletByAddress_none_iff _ "bc1-spot")).
  intros w c [<-|[<-|[]]] Hty; simpl.
  - intros [H|[]]. discriminate.
  - discriminate.
Defined.

(** For BTC, LTC, DOGE and DASH the destination address is not validated:
    the outcome is the same whatever [validateAddress] would say. *)
Theorem utxo_chains_skip_validation e v uid cur chain amount to st :
  isUtxoChain chain = true ->
  storeWithdrawal
    (mkEnv v (getEcosystemToken e) (getTronService e) (getWalletData e)
           (getMoneroService e) (processInternalTransfer e))
    uid cur chain amount to st =
  storeWithdrawal e uid cur chain amount to st.
Proof.
  intros Hu. unfold storeWithdrawal. rewrite Hu. simpl.
  assert (String.eqb chain "TRON" = false /\ String.eqb chain "XMR" = false) as [Ht Hx].
  { unfold isUtxoChain in Hu. simpl in Hu.
    repeat (apply orb_true_iff in Hu; destruct Hu as [Hu|Hu]);
      try discriminate; apply String.eqb_eq in Hu; subst chain; split; reflexivity. }
  unfold chainFees. simpl. rewrite Ht, Hx. reflexivity.
Qed.

Lemma utxo_chains_skip_validation_witness :
  let st := mkState [sampleWallet "w1" "u1" "bc1-user1" 100 0] [] [] in
  storeWithdrawal
    (mkEnv (fun _ _ => Some "Invalid address") (getEcosystemToken sampleEnv)
           (getTronService sampleEnv) (getWalletData sampleEnv)
           (getMoneroService sampleEnv) (processInternalTransfer sampleEnv))
    "u1" "BTC" "BTC" (mkNum [6%nat] 2) "not-an-address" st =
  storeWithdrawal sampleEnv "u1" "BTC" "BTC" (mkNum [6%nat] 2) "not-an-address" st.
Proof.
  intros st.
  apply (utxo_chains_skip_validation sampleEnv (fun _ _ => Some "Invalid address")).
  reflexivity.
Defined.



End WithdrawMore.

(** ** Further properties of the deposit monitor *)

Module MonitorMore.
Import Monitor MonitorInvariants MonitorFacts.

Section WithOptions.

Variable satoshiToStandardUnit : Z -> string -> Q.
Variable opts : UTXOOptions.

Local Abbreviation processTx := (processTx satoshiToStandardUnit opts).
Local Abbreviation processAll := (processAll satoshiToStandardUnit opts).
Local Abbreviation pollBody := (pollBody satoshiToStandardUnit opts).
Local Abbreviation pollDeposits := (pollDeposits satoshiToStandardUnit opts).
Local Abbreviation watchDeposits := (watchDeposits satoshiToStandardUnit opts).
Local Abbreviation step := (step satoshiToStandardUnit opts).
Local Abbreviation run := (run satoshiToStandardUnit opts).
Local Abbreviation cycleFails := (cycleFails satoshiToStandardUnit opts).
Local Abbreviation makeDetails := (makeDetails satoshiToStandardUnit opts).
Local Abbreviation addressedAmount := (addressedAmount satoshiToStandardUnit opts).

(** [stopPolling] is idempotent; it clears the flag and the handle,
    cancels the timeout whose handle was held and no other, and after it a
    poll cycle or a call of [watchDeposits] does nothing. *)
Theorem stopPolling_idempotent (s : UTXODeposits * World) (a : fetchAnswer) :
  stopPolling (stopPolling s) = stopPolling s /\
  active (fst (stopPolling s)) = false /\
  intervalId (fst (stopPolling s)) = None /\
  (forall t, intervalId (fst s) = Some t -> isPending t (snd (stopPolling s)) = false) /\
  (forall p, In p (timers (snd s)) -> Some (fst p) <> intervalId (fst s) ->
             In p (timers (snd (stopPolling s)))) /\
  pollDeposits (stopPolling s) a = stopPolling s /\
  watchDeposits (stopPolling s) a = stopPolling s.
Proof.
  destruct s as [[act i e p l] [rows tm nt tr]]. unfold stopPolling. simpl.
  destruct i as [t|]; simpl.
  - repeat split; try reflexivity.
    + intros t' [= <-]. unfold isPending, clearTimeout. simpl.
      induction tm as [|[t1 d1] tm IH]; simpl; [reflexivity|].
      destruct (Nat.eqb t1 t) eqn:E; simpl; [exact IH|]. rewrite E. exact IH.
    + intros q Hin Hne. apply List.filter_In. split; [exact Hin|].
      apply negb_true_iff. apply Nat.eqb_neq. congruence.
  - repeat split; try reflexivity.
    + intros t [=].
    + auto.
Qed.

Lemma processAll_single entry s : processAll [entry] s = processTx s entry.
Proof.
  cbn [Monitor.processAll]. destruct (processTx s entry) as [[|] s1]; reflexivity.
Qed.

(** A cycle that fetches a single entry. *)
Lemma pollDeposits_single m w entry :
  active m = true ->
  pollDeposits (m, w) (FetchOk [entry]) =
    let w1 := logEvent (FetchTransactions (chain opts) (address opts)) w in
    let r := processTx (m, w1) entry in
    if fst r then scheduleNext (setErrors 0 (fst (snd r)), snd (snd r))
    else
      let m2 := setErrors (consecutiveErrors (fst (snd r)) + 1) (fst (snd r)) in
      if MAX_CONSECUTIVE_ERRORS <=? consecutiveErrors m2
      then stopPolling (m2, snd (snd r))
      else scheduleNext (m2, snd (snd r)).
Proof.
  intros Hact. unfold Monitor.pollDeposits, Monitor.pollBody.
  cbv beta iota zeta. cbn [fst snd]. rewrite Hact. cbn [negb].
  rewrite processAll_single.
  destruct (processTx _ entry) as [[|] [m2 w2]]; reflexivity.
Qed.

Lemma cycleFails_single m w entry :
  active m = true ->
  cycleFails (m, w) (FetchOk [entry]) =
    negb (fst (processTx
                 (m, logEvent (FetchTransactions (chain opts) (address opts)) w) entry)).
Proof.
  intros Hact. unfold Monitor.cycleFails, Monitor.pollBody.
  cbv beta iota zeta. cbn [fst snd]. rewrite Hact. cbn [andb].
  rewrite processAll_single.
  destruct (processTx _ entry) as [[|] [m2 w2]]; reflexivity.
Qed.

(** The iteration for a confirmed transaction that is neither processed
    nor stored. *)
Lemma confirmed_iteration m w tx ans :
  hash tx ∉ processedTxHashes m ->
  findThrows ans = false ->
  findOne (db w) (hash tx) (walletId opts) = None ->
  requiredConfirmations (chain opts) <= default 0 (confirmations tx) ->
  processTx (m, w) (tx, ans) =
    match full ans with
    | FullOk ftx =>
        let r := storeAndBroadcastTransaction (makeDetails tx ftx) (store ans) w in
        if fst r then (true, (markProcessed (hash tx) m, snd r)) else (true, (m, snd r))
    | _ => (true, (m, w))
    end.
Proof.
  intros Hnp Hft Hfo Hreq.
  unfold Monitor.processTx. rewrite decide_False by exact Hnp.
  rewrite Hft, Hfo.
  replace (default 0 (confirmations tx) <? requiredConfirmations (chain opts))
    with false by (symmetry; apply Z.ltb_ge; exact Hreq).
  destruct (full ans) as [| |ftx]; try reflexivity.
  destruct (storeAndBroadcastTransaction _ (store ans) w) as [[|] w1]; reflexivity.
Qed.



(** *** The processed set is backed by stored rows *)

Lemma findOne_app_l rows more h :
  findOne rows h (walletId opts) <> None ->
  findOne (rows ++ more)%list h (walletId opts) <> None.
Proof.
  unfold findOne. induction rows as [|r rows IH]; simpl; [congruence|].
  destruct (String.eqb (trxId r) h && String.eqb (recWalletId r) (walletId opts));
    [discriminate | exact IH].
Qed.

Lemma findOne_app_new rows h q :
  findOne (rows ++ [mkRecord h (walletId opts) q])%list h (walletId opts) <> None.
Proof.
  unfold findOne. induction rows as [|r rows IH]; simpl.
  - rewrite !String.eqb_refl. discriminate.
  - destruct (String.eqb (trxId r) h && String.eqb (recWalletId r) (walletId opts));
      [discriminate | exact IH].
Qed.

Lemma backed_mark s h :
  backed opts s -> findOne (db (snd s)) h (walletId opts) <> None ->
  backed opts (markProcessed h (fst s), snd s).
Proof.
  intros Hb Hf h' Hin. unfold markProcessed in Hin. simpl in *.
  apply elem_of_union in Hin. destruct Hin as [Hin|Hin]; [|apply Hb; exact Hin].
  apply elem_of_singleton in Hin. subst h'. exact Hf.
Qed.

Lemma backed_same s s' :
  processedTxHashes (fst s') = processedTxHashes (fst s) ->
  (forall h, findOne (db (snd s)) h (walletId opts) <> None ->
             findOne (db (snd s')) h (walletId opts) <> None) ->
  backed opts s -> backed opts s'.
Proof.
  intros Hp Hd Hb h Hin. apply Hd. apply Hb. rewrite <- Hp. exact Hin.
Qed.

Lemma processTx_backed s entry :
  backed opts s -> backed opts (snd (processTx s entry)).
Proof.
  intros Hb. destruct s as [m w], entry as [tx ans]. unfold Monitor.processTx.
  destruct (decide (hash tx ∈ processedTxHashes m)); [exact Hb|].
  destruct (findThrows ans); [exact Hb|].
  destruct (findOne (db w) (hash tx) (walletId opts)) eqn:Hfo.
  { apply (backed_mark (m, w)); [exact Hb|]. simpl. congruence. }
  destruct (default 0 (confirmations tx) <? requiredConfirmations (chain opts)).
  - assert (forall b,
              backed opts
                (snd (let w1 := logEvent b w in
                      if broadcastThrows ans then (false, (m, w1))
                      else (true, (setLastBroadcast (hash tx)
                                     (default 0 (confirmations tx)) m, w1)))))
      as Hbr.
    { intros b. cbv zeta. destruct (broadcastThrows ans); simpl;
        (eapply backed_same; [| |exact Hb]; simpl; auto). }
    destruct (lastBroadcastedConfirmations m !! hash tx) as [l|];
      [destruct (negb (l =? default 0 (confirmations tx)))|];
      first [apply Hbr | exact Hb].
  - destruct (full ans) as [| |ftx]; try exact Hb.
    unfold storeAndBroadcastTransaction. destruct (store ans); simpl.
    + apply (backed_mark (m, _)); simpl.
      * eapply backed_same; [| |exact Hb]; simpl; [reflexivity|].
        intros h. apply findOne_app_l.
      * apply findOne_app_new.
    + eapply backed_same; [| |exact Hb]; simpl; auto.
    + eapply backed_same; [| |exact Hb]; simpl; [reflexivity|].
      intros h. apply findOne_app_l.
Qed.

Lemma processAll_backed txs :
  forall s, backed opts s -> backed opts (snd (processAll txs s)).
Proof.
  induction txs as [|entry txs IH]; intros s Hb; [exact Hb|].
  cbn [Monitor.processAll].
  pose proof (processTx_backed s entry Hb) as H1.
  destruct (processTx s entry) as [[|] s1]; simpl in *; auto.
Qed.

Lemma pollDeposits_backed s a :
  backed opts s -> backed opts (pollDeposits s a).
Proof.
  intros Hb. unfold Monitor.pollDeposits.
  destruct (negb (active (fst s))); [exact Hb|].
  assert (backed opts (snd (pollBody s a))) as Hbody.
  { destruct s as [m w]. unfold Monitor.pollBody.
    assert (backed opts (m, logEvent (FetchTransactions (chain opts) (address opts)) w))
      as Hb1 by (eapply backed_same; [| |exact Hb]; simpl; auto).
    destruct a as [| |txs]; try exact Hb1.
    destruct txs as [|entry txs]; [exact Hb1|].
    pose proof (processAll_backed (entry :: txs) _ Hb1) as H1.
    destruct (processAll (entry :: txs) _) as [[|] [m2 w2]]; exact H1. }
  destruct (pollBody s a) as [ok [m1 w1]]. simpl in Hbody.
  assert (forall s0, backed opts s0 -> backed opts (scheduleNext s0)) as Hsched.
  { intros [m0 w0] H0. unfold scheduleNext. destruct (active m0); [|exact H0].
    eapply backed_same; [| |exact H0]; simpl; auto. }
  assert (forall s0, backed opts s0 -> backed opts (stopPolling s0)) as Hstop.
  { intros [m0 w0] H0. unfold stopPolling. simpl.
    destruct (intervalId m0); (eapply backed_same; [| |exact H0]; simpl; auto). }
  destruct ok; [apply Hsched; exact Hbody|].
  assert (backed opts (setErrors (consecutiveErrors m1 + 1) m1, w1)) as H2
    by (eapply backed_same; [| |exact Hbody]; simpl; auto).
  destruct (MAX_CONSECUTIVE_ERRORS <=? _); [apply Hstop | apply Hsched]; exact H2.
Qed.

(** Over any sequence of timer firings, calls and restarts, every hash in
    the in-memory set [processedTxHashes] has a stored row for the wallet:
    the set never says more than the durable store. *)
Theorem processed_hashes_are_stored acts :
  forall s, backed opts s -> backed opts (run acts s).
Proof.
  unfold Monitor.run. induction acts as [|act acts IH]; intros s Hb; [exact Hb|].
  simpl. apply IH. destruct act as [t a|a| |a]; simpl.
  - destruct (isPending t (snd s)); [|exact Hb].
    apply pollDeposits_backed.
    eapply backed_same; [| |exact Hb]; simpl; auto.
  - unfold Monitor.watchDeposits. destruct (negb (active (fst s))); [exact Hb|].
    apply pollDeposits_backed. exact Hb.
  - destruct s as [m0 w0]. unfold stopPolling. simpl.
    destruct (intervalId m0); (eapply backed_same; [| |exact Hb]; simpl; auto).
  - unfold Monitor.watchDeposits. simpl. apply pollDeposits_backed.
    intros h Hin. simpl in Hin. set_solver.
Qed.

(** *** Timers *)

Lemma pollDeposits_oneTimer s a :
  timers (snd s) = [] -> oneTimer (pollDeposits s a).
Proof.
  intros Htm. unfold Monitor.pollDeposits.
  destruct (negb (active (fst s))); [left; exact Htm|].
  pose proof (pollBody_control satoshiToStandardUnit opts s a) as (Ha & Hi & Ht & Hn & He).
  destruct (pollBody s a) as [ok [m1 w1]]. cbn [fst snd] in *. rewrite Htm in Ht.
  assert (forall m0, oneTimer (scheduleNext (m0, w1))) as Hsched.
  { intros m0. unfold scheduleNext. destruct (active m0); [|left; exact Ht].
    right. simpl. rewrite Ht. eauto. }
  assert (forall m0, oneTimer (stopPolling (m0, w1))) as Hstop.
  { intros m0. unfold stopPolling. simpl.
    destruct (intervalId m0); left; simpl; rewrite ?Ht; reflexivity. }
  destruct ok; [apply Hsched|].
  destruct (MAX_CONSECUTIVE_ERRORS <=? _); [apply Hstop | apply Hsched].
Qed.

(** Driven by its own timeouts and by [stopPolling] only, a monitor has at
    most one poll pending at any time: cycles do not overlap. *)
Theorem polls_do_not_overlap acts :
  forall s,
    oneTimer s ->
    forallb timerDriven acts = true ->
    oneTimer (run acts s) /\ (List.length (timers (snd (run acts s))) <= 1)%nat.
Proof.
  assert (forall s, oneTimer s -> (List.length (timers (snd s)) <= 1)%nat) as Hlen.
  { intros s [H|(t & d & _ & H)]; rewrite H; simpl; lia. }
  assert (forall acts s, oneTimer s -> forallb timerDriven acts = true ->
                         oneTimer (run acts s)) as Hrun.
  { clear acts. unfold Monitor.run.
    induction acts as [|act acts IH]; intros s Hs Hall; [exact Hs|].
    simpl in Hall. apply andb_true_iff in Hall. destruct Hall as [Hact Hall].
    simpl. apply IH; [|exact Hall].
    destruct act as [t a|a| |a]; simpl in *; try discriminate.
    - destruct (isPending t (snd s)) eqn:Hp; [|exact Hs].
      apply pollDeposits_oneTimer. simpl.
      destruct Hs as [H|(t' & d & _ & H)]; rewrite H in *.
      + reflexivity.
      + unfold isPending in Hp. rewrite H in Hp. simpl in Hp.
        rewrite orb_false_r in Hp. simpl. rewrite Hp. reflexivity.
    - destruct s as [m0 w0]. unfold stopPolling. unfold oneTimer in Hs.
      cbn [fst snd] in *.
      destruct Hs as [H|(t' & d & Hi & H)].
      + destruct (intervalId m0); left; simpl; rewrite ?H; reflexivity.
      + rewrite Hi. left. simpl. rewrite H. simpl.
        rewrite Nat.eqb_refl. reflexivity. }
  intros s Hs Hall. split; [|apply Hlen]; apply Hrun; assumption.
Qed.

(** [watchDeposits] does not check that a loop is already running: called
    on an active monitor that is not one error away from stopping, it polls
    at once and adds a timeout to those already pending, so a second call
    starts a second loop. *)
Theorem watchDeposits_adds_a_loop s a :
  active (fst s) = true ->
  consecutiveErrors (fst s) + 1 < MAX_CONSECUTIVE_ERRORS ->
  exists d,
    timers (snd (watchDeposits s a)) = (timers (snd s) ++ [(nextTimer (snd s), d)])%list /\
    List.length (timers (snd (watchDeposits s a))) = S (List.length (timers (snd s))).
Proof.
  intros Hact Herr. unfold Monitor.watchDeposits, Monitor.pollDeposits.
  rewrite Hact. cbn [negb].
  pose proof (pollBody_control satoshiToStandardUnit opts s a) as (Ha & Hi & Ht & Hn & He).
  destruct (pollBody s a) as [ok [m1 w1]]. simpl in *. rewrite Hact in Ha.
  destruct ok.
  - unfold scheduleNext. rewrite Ha. simpl. rewrite Ht, Hn.
    eexists. split; [reflexivity|]. rewrite List.length_app. simpl. lia.
  - replace (MAX_CONSECUTIVE_ERRORS <=? consecutiveErrors m1 + 1) with false
      by (symmetry; apply Z.leb_gt; rewrite He; exact Herr).
    unfold scheduleNext. simpl. rewrite Ha. simpl. rewrite Ht, Hn.
    eexists. split; [reflexivity|]. rewrite List.length_app. simpl. lia.
Qed.


(** *** The credited amount *)

Lemma fold_Qplus (l : list Q) (a : Q) :
  (fold_left Qplus l a == a + fold_left Qplus l 0)%Q.
Proof.
  revert a. induction l as [|x l IH]; intros a; simpl.
  - symmetry. apply Qplus_0_r.
  - rewrite IH. rewrite (IH (0 + x)%Q). ring.
Qed.


End WithOptions.


Lemma stopPolling_idempotent_witness :
  let s := (mkMonitor true (Some 3%nat) 0 ∅ ∅, mkWorld [] [(3%nat, 30000); (7%nat, 30000)] 8 []) in
  isPending 3 (snd (stopPolling s)) = false /\
  In (7%nat, 30000) (timers (snd (stopPolling s))).
Proof.
  intros s.
  destruct (stopPolling_idempotent sampleUnits sampleOptions s FetchNull)
    as (_ & _ & _ & H1 & H2 & _).
  split.
  - apply H1. reflexivity.
  - apply H2; [right; left; reflexivity | discriminate].
Defined.


Lemma processed_hashes_are_stored_witness :
  let seen := sighting "tx1" (Some 5000) okAnswers 6 in
  backed sampleOptions
    (run sampleUnits sampleOptions [CallWatchDeposits seen; TimerFires 0 seen]
       (newMonitor, emptyWorld)).
Proof.
  intros seen.
  apply (processed_hashes_are_stored sampleUnits sampleOptions).
  intros h Hin. simpl in Hin. exfalso. exact (not_elem_of_empty h Hin).
Defined.

Lemma polls_do_not_overlap_witness :
  (List.length
     (timers (snd (run sampleUnits sampleOptions
                     [TimerFires 0 FetchNull; TimerFires 1 FetchThrows; CallStopPolling]
                     (pollDeposits sampleUnits sampleOptions (newMonitor, emptyWorld)
                        FetchNull)))) <= 1)%nat.
Proof.
  apply (polls_do_not_overlap sampleUnits sampleOptions).
  - right. exists 0%nat, 30000. split; reflexivity.
  - reflexivity.
Defined.

Lemma watchDeposits_adds_a_loop_witness :
  let s := pollDeposits sampleUnits sampleOptions (newMonitor, emptyWorld) FetchNull in
  List.length (timers (snd s)) = 1%nat /\
  exists d,
    timers (snd (watchDeposits sampleUnits sampleOptions s FetchNull)) =
      (timers (snd s) ++ [(nextTimer (snd s), d)])%list /\
    List.length (timers (snd (watchDeposits sampleUnits sampleOptions s FetchNull))) =
      S (List.length (timers (snd s))).
Proof.
  intros s. split; [reflexivity|].
  apply (watchDeposits_adds_a_loop sampleUnits sampleOptions s FetchNull).
  - reflexivity.
  - reflexivity.
Defined.



End MonitorMore.

(** ** Further properties of the explorer cache and requests *)

Module TxCacheMore.
Import TxCache TxCacheFacts Explorer.

(** A fetch that misses the cache and gets an array from the explorer
    stores it; a later fetch for the same address and chain is answered
    from the cache, without a call, for the next 30 seconds, and goes to
    the explorer again from then on. *)
Theorem cached_for_thirty_seconds address chain (t0 t now later : Z) raw u st :
  getCachedData t0 (cacheKey address chain) (redis st) = None ->
  t <= now ->
  let first := fetchAndParseTransactions address chain true t0 t (UpstreamResult raw) st in
  let second := fetchAndParseTransactions address chain true now later u (snd first) in
  fst first = Some (List.map parseTx raw) /\
  networkCalls (snd first) = S (networkCalls st) /\
  (now < t + 30000 -> second = (Some (List.map parseTx raw), snd first)) /\
  (t + 30000 <= now -> networkCalls (snd second) = S (S (networkCalls st))).
Proof.
  intros Hmiss Hle first second.
  assert (first = (Some (List.map parseTx raw),
                   mkState (redisSetex t (cacheKey address chain) CACHE_EXPIRATION
                              (mkCache (List.map parseTx raw) t) (redis st))
                           (S (networkCalls st)))) as Hfirst.
  { unfold first, fetchAndParseTransactions. rewrite Hmiss. reflexivity. }
  split; [rewrite Hfirst; reflexivity|]. split; [rewrite Hfirst; reflexivity|].
  unfold second. rewrite Hfirst. cbn [snd].
  unfold fetchAndParseTransactions. cbn [redis networkCalls].
  rewrite (cache_window address chain t now _ _ Hle).
  split; intros H.
  - replace (now <? t + 30000) with true by (symmetry; apply Z.ltb_lt; exact H).
    reflexivity.
  - replace (now <? t + 30000) with false by (symmetry; apply Z.ltb_ge; exact H).
    destruct u as [| |res]; reflexivity.
Qed.

Lemma cached_for_thirty_seconds_witness :
  let first := fetchAndParseTransactions "0xabc" "ETH" true 0 5
                 (UpstreamResult [sampleRaw "0x01"]) (mkState ∅ 0) in
  networkCalls (snd (fetchAndParseTransactions "0xabc" "ETH" true 40000 40000
                       UpstreamThrows (snd first))) = 2%nat.
Proof.
  intros first.
  apply (cached_for_thirty_seconds "0xabc" "ETH" 0 5 40000 40000 [sampleRaw "0x01"]
           UpstreamThrows (mkState ∅ 0)).
  - reflexivity.
  - lia.
  - lia.
Defined.

(** Whatever the Redis keyspace holds, [getCachedData] only serves an
    entry that is stored under the key, has not expired, and (unless its
    stamp lies in the future) was stamped less than 30 minutes ago. *)
Theorem served_entries_are_fresh (now : Z) (key : string) (r : gmap string redisEntry) txs :
  getCachedData now key r = Some txs ->
  exists e,
    r !! key = Some e /\
    txs = transactions (payload e) /\
    now < expiresAt e /\
    (stamp (payload e) <= now -> now - stamp (payload e) < 1800000).
Proof.
  unfold getCachedData, redisGet.
  destruct (r !! key) as [e|]; [|discriminate].
  destruct (now <? expiresAt e) eqn:Ex; [|discriminate].
  destruct (differenceInMinutes now (stamp (payload e)) <? CACHE_EXPIRATION) eqn:Ef;
    [|discriminate].
  intros [= <-]. exists e. apply Z.ltb_lt in Ex.
  repeat split; auto.
  intros Hle. apply differenceInMinutes_fresh; assumption.
Qed.

Lemma served_entries_are_fresh_witness :
  exists e,
    ({[ "k" := mkEntry (mkCache [] 1000) 31000 ]} : gmap string redisEntry) !! "k" = Some e /\
    [] = transactions (payload e) /\
    2000 < expiresAt e /\
    (stamp (payload e) <= 2000 -> 2000 - stamp (payload e) < 1800000).
Proof.
  apply (served_entries_are_fresh 2000 "k"
           ({[ "k" := mkEntry (mkCache [] 1000) 31000 ]} : gmap string redisEntry) []).
  reflexivity.
Defined.

(** The only key [fetchAndParseTransactions] ever writes is the one of
    its address and chain, and it writes it only when caching is on, the
    cache missed and the explorer returned an array: with caching off, or
    when the explorer fails or answers something else, Redis is left as it
    was. *)
Theorem cache_writes_are_confined address chain cache (now later : Z) u st :
  (forall k, k <> cacheKey address chain ->
             redis (snd (fetchAndParseTransactions address chain cache now later u st)) !! k =
             redis st !! k) /\
  (cache = false \/ parseRawTransactions u = None ->
   redis (snd (fetchAndParseTransactions address chain cache now later u st)) = redis st) /\
  (cache = false ->
   networkCalls (snd (fetchAndParseTransactions address chain cache now later u st)) =
     S (networkCalls st) /\
   fst (fetchAndParseTransactions address chain cache now later u st) =
     parseRawTransactions u).
Proof.
  unfold fetchAndParseTransactions. split; [|split].
  - intros k Hk.
    destruct (if cache then getCachedData now (cacheKey address chain) (redis st) else None);
      [reflexivity|].
    destruct u as [| |res]; try reflexivity. simpl.
    destruct cache; [|reflexivity]. simpl. unfold redisSetex.
    apply lookup_insert_ne. congruence.
  - intros H.
    destruct (if cache then getCachedData now (cacheKey address chain) (redis st) else None);
      [reflexivity|].
    destruct u as [| |res]; try reflexivity. simpl in *.
    destruct H as [->|H]; [reflexivity | discriminate].
  - intros ->. destruct u as [| |res]; split; reflexivity.
Qed.

Lemma cache_writes_are_confined_witness :
  redis (snd (fetchAndParseTransactions "0xabc" "HECO" false 0 0
                (UpstreamResult [sampleRaw "0x01"]) (mkState ∅ 0))) = ∅.
Proof.
  apply (cache_writes_are_confined "0xabc" "HECO" false 0 0
           (UpstreamResult [sampleRaw "0x01"]) (mkState ∅ 0)).
  left. reflexivity.
Defined.

(** An explorer answer with status "0" and message "NOTOK" is turned into
    an empty result, whatever else it carries, so parsing it yields the
    empty list. *)
Theorem notok_is_an_empty_list chainConfigs env http chain address data r :
  (forall url, http url = HttpJson data) ->
  status data = "0" -> message data = "NOTOK" ->
  fetchGeneralEcosystemTransactions chainConfigs env http chain address = inr r ->
  r = mkData "1" "OK" (Some []) /\
  parseRawTransactions (asUpstream (inr r)) = Some [].
Proof.
  intros Hhttp Hs Hm. unfold fetchGeneralEcosystemTransactions.
  destruct (chainConfigs chain) as [cfg|]; [|discriminate].
  destruct (getenv env (networkEnvVar chain)) as [nn|]; [|discriminate].
  destruct (default true (explorerApi cfg) && _); [discriminate|].
  destruct (lookupNetwork nn (networks cfg)) as [net|]; [|discriminate].
  destruct (String.eqb (explorer net) ""); [discriminate|].
  rewrite Hhttp, Hs, Hm. simpl. intros [= <-]. split; reflexivity.
Qed.

Lemma notok_is_an_empty_list_witness :
  let env : gmap string string :=
    {[ "ETH_NETWORK" := "mainnet"; "ETH_EXPLORER_API_KEY" := "key" ]} in
  let data := mkData "0" "NOTOK" None in
  parseRawTransactions
    (asUpstream (fetchGeneralEcosystemTransactions sampleConfigs env
                   (fun _ => HttpJson data) "ETH" "0xabc")) = Some [].
Proof.
  intros env data.
  apply (notok_is_an_empty_list sampleConfigs env (fun _ => HttpJson data) "ETH" "0xabc"
           data).
  - reflexivity.
  - reflexivity.
  - reflexivity.
  - reflexivity.
Defined.

Lemma append_inv_head (a b c : string) : (a ++ b)%string = (a ++ c)%string -> b = c.
Proof.
  induction a as [|x a IH]; JsNumberFacts.push_append; [auto|].
  intros [= H]. auto.
Qed.

(** No request is sent while the configuration is incomplete: an unknown
    chain, an unset network variable, a missing API key or an unknown
    network is reported whatever the explorer would answer.  A chain whose
    entry has [explorerApi: false] needs no API key: its outcome does not
    depend on the key variable. *)
Theorem configuration_errors_precede_requests chainConfigs env http http' chain address :
  (forall e,
     fetchGeneralEcosystemTransactions chainConfigs env http chain address = inl e ->
     (forall msg, e <> ApiCallFailed msg) ->
     fetchGeneralEcosystemTransactions chainConfigs env http' chain address = inl e) /\
  (forall cfg key,
     chainConfigs chain = Some cfg -> explorerApi cfg = Some false ->
     fetchGeneralEcosystemTransactions chainConfigs (<[apiEnvVar chain := key]> env)
       http chain address =
     fetchGeneralEcosystemTransactions chainConfigs env http chain address).
Proof.
  split.
  - intros e. unfold fetchGeneralEcosystemTransactions.
    destruct (chainConfigs chain) as [cfg|]; [|auto].
    destruct (getenv env (networkEnvVar chain)) as [nn|]; [|auto].
    destruct (default true (explorerApi cfg) && _); [auto|].
    destruct (lookupNetwork nn (networks cfg)) as [net|]; [|auto].
    destruct (String.eqb (explorer net) ""); [auto|].
    destruct (http _) as [msg|d].
    + intros [= <-] Hne. exfalso. exact (Hne msg eq_refl).
    + destruct (String.eqb (status d) "0" && String.eqb (message d) "NOTOK"); discriminate.
  - intros cfg key Hcfg Hapi. unfold fetchGeneralEcosystemTransactions.
    rewrite Hcfg, Hapi. simpl.
    assert (getenv (<[apiEnvVar chain := key]> env) (networkEnvVar chain) =
            getenv env (networkEnvVar chain)) as ->.
    { unfold getenv. rewrite lookup_insert_ne; [reflexivity|].
      unfold apiEnvVar, networkEnvVar. intros H. apply append_inv_head in H.
      discriminate. }
    destruct (getenv env (networkEnvVar chain)) as [nn|]; [|reflexivity].
    destruct (lookupNetwork nn (networks cfg)) as [net|]; [|reflexivity].
    unfold requestUrl. reflexivity.
Qed.

Lemma configuration_errors_precede_requests_witness :
  let env : gmap string string := {[ "MO_NETWORK" := "mainnet" ]} in
  fetchGeneralEcosystemTransactions sampleConfigs (<[apiEnvVar "MO" := "key"]> env)
    (fun _ => HttpFails "down") "MO" "0xabc" =
  fetchGeneralEcosystemTransactions sampleConfigs env (fun _ => HttpFails "down") "MO" "0xabc".
Proof.
  intros env.
  destruct (configuration_errors_precede_requests sampleConfigs env
              (fun _ => HttpFails "down") (fun _ => HttpFails "down") "MO" "0xabc")
    as [_ H].
  apply (H (mkChainConfig (Some false)
              [("mainnet", mkNetwork "mainnet.mochain.app" None);
               ("testnet", mkNetwork "testnet.mochain.app" None)]) "key");
    reflexivity.
Defined.

End TxCacheMore.

(** ** Further properties of the node service *)

Module BtcNodeMore.
Import JsNumber BtcNode BtcNodeService.

Lemma length_listtransactions history count skip :
  (List.length (listtransactions history count skip) <= count)%nat.
Proof.
  unfold listtransactions. rewrite List.length_rev. apply List.firstn_le_length.
Qed.

(** The node-backed lookup never returns more than 100 entries, every
    entry it returns is one of the wallet's transactions and carries the
    queried address (an entry without an address is never returned), and
    when the node cannot be reached the error is passed on. *)
Theorem getAddressTransactions_bounded down history a :
  (forall txs,
     getAddressTransactions down history a = inr txs ->
     (List.length txs <= 100)%nat /\
     forall tx, In tx txs -> address tx = Some a /\ In tx history) /\
  (forall msg, down = Some msg -> getAddressTransactions down history a = inl msg).
Proof.
  split.
  - intros txs. unfold getAddressTransactions, BtcNode.walletRpcCall.
    destruct down; [discriminate|]. intros [= <-]. split.
    + eapply Nat.le_trans; [apply List.filter_length_le|].
      apply length_listtransactions.
    + intros tx Hin. apply List.filter_In in Hin. destruct Hin as [Hin Ha].
      split.
      * unfold addressIs in Ha. destruct (address tx); [|discriminate].
        apply String.eqb_eq in Ha. congruence.
      * unfold listtransactions in Hin. apply List.in_rev in Hin.
        rewrite List.skipn_O in Hin. apply List.in_rev.
        rewrite <- (List.firstn_skipn 100 (List.rev history)).
        apply List.in_or_app. left. exact Hin.
  - intros msg ->. reflexivity.
Qed.

Lemma getAddressTransactions_bounded_witness :
  exists txs,
    getAddressTransactions None (List.repeat (sampleTx "t" "bc1-watch") 150) "bc1-watch" =
      inr txs /\
    (List.length txs <= 100)%nat.
Proof.
  eexists. split; [reflexivity|].
  destruct (getAddressTransactions_bounded None
              (List.repeat (sampleTx "t" "bc1-watch") 150) "bc1-watch") as [Hb _].
  apply (Hb _ eq_refl).
Defined.

Lemma ensureWalletExists_thrown (load create : rpcAnswer unit) :
  fst (ensureWalletExists load create) =
    match rpcCall load with
    | inl m =>
        if includes m "not found" || includes m "does not exist" ||
           includes m "already loaded"
        then None else Some m
    | inr _ => None
    end.
Proof.
  unfold ensureWalletExists. destruct (rpcCall load) as [m|[]]; [|reflexivity].
  destruct (includes m "not found"), (includes m "does not exist"),
    (includes m "already loaded"); simpl; try reflexivity;
    destruct (rpcCall create); reflexivity.
Qed.

Lemma ensureWalletExists_calls (load create : rpcAnswer unit) :
  snd (ensureWalletExists load create) =
    match rpcCall load with
    | inl m =>
        if includes m "not found" || includes m "does not exist"
        then ["loadwallet"; "createwallet"] else ["loadwallet"]
    | inr _ => ["loadwallet"]
    end.
Proof.
  unfold ensureWalletExists. destruct (rpcCall load) as [m|[]]; [|reflexivity].
  destruct (includes m "not found"), (includes m "does not exist"),
    (includes m "already loaded"); simpl; try reflexivity;
    destruct (rpcCall create); reflexivity.
Qed.

(** [ensureWalletExists] throws only when loading fails with a message
    that mentions neither a missing nor an already loaded wallet; it asks
    the node to create the wallet exactly when the message says the wallet
    is missing, and a failure of that creation is swallowed.
    [importAddress] likewise treats "already have this key" as success. *)
Theorem benign_node_errors (load create : rpcAnswer unit) (imp : rpcAnswer unit) :
  (forall msg,
     fst (ensureWalletExists load create) = Some msg <->
     rpcCall load = inl msg /\
     includes msg "not found" = false /\ includes msg "does not exist" = false /\
     includes msg "already loaded" = false) /\
  (In "createwallet" (snd (ensureWalletExists load create)) <->
   exists msg, rpcCall load = inl msg /\
               (includes msg "not found" = true \/ includes msg "does not exist" = true)) /\
  (forall create', fst (ensureWalletExists load create') = fst (ensureWalletExists load create)) /\
  (forall msg,
     importAddress imp = Some msg <->
     walletRpcCall imp = inl msg /\ includes msg "already have this key" = false).
Proof.
  split; [|split; [|split]].
  - intros msg. rewrite ensureWalletExists_thrown.
    destruct (rpcCall load) as [m|[]].
    + destruct (includes m "not found") eqn:E1,
        (includes m "does not exist") eqn:E2,
        (includes m "already loaded") eqn:E3; simpl;
        (split; [intros [= <-] | intros ([= <-] & H1 & H2 & H3)];
         repeat split; congruence).
    + split; [discriminate | intros [H _]; discriminate].
  - rewrite ensureWalletExists_calls.
    destruct (rpcCall load) as [m|[]].
    + destruct (includes m "not found") eqn:E1,
        (includes m "does not exist") eqn:E2; simpl.
      * split; [intros _; exists m; auto | auto].
      * split; [intros _; exists m; auto | auto].
      * split; [intros _; exists m; auto | auto].
      * split; [intros [H|[]]; discriminate|].
        intros (m' & [= <-] & [H|H]); congruence.
    + split; [intros [H|[]]; discriminate | intros (m' & H & _); discriminate].
  - intros create'. rewrite !ensureWalletExists_thrown. reflexivity.
  - intros msg. unfold importAddress. destruct (walletRpcCall imp) as [m|[]].
    + destruct (includes m "already have this key") eqn:E.
      * split; [discriminate|]. intros ([= ->] & H). congruence.
      * split; [intros [= ->]; auto | intros ([= ->] & _); reflexivity].
    + split; [discriminate|]. intros [H _]. discriminate.
Qed.

Lemma benign_node_errors_witness :
  fst (ensureWalletExists
         (JsonAnswer (Some (Some "Wallet file verification failed")) tt)
         (FetchFails "down")) =
  Some "Wallet file verification failed".
Proof.
  destruct (benign_node_errors
              (JsonAnswer (Some (Some "Wallet file verification failed")) tt)
              (FetchFails "down") (FetchFails "down")) as [H _].
  apply (proj2 (H "Wallet file verification failed")).
  repeat split; reflexivity.
Defined.

(** The static instance is assigned before it is initialised, so
    [getInstance] attempts the initialisation once only: after any first
    call, also one whose initialisation threw, a further call returns the
    instance without an error and without talking to the node. *)
Theorem initialisation_is_attempted_once instance info load create info' load' create' :
  let first := getInstance instance info load create in
  snd (fst first) = true /\
  getInstance (snd (fst first)) info' load' create' = (None, true, []).
Proof.
  unfold getInstance. destruct instance; simpl.
  - split; reflexivity.
  - destruct (initialize info load create) as [thrown calls]. simpl.
    split; reflexivity.
Qed.

Lemma fold_balance (l : list utxo) (a : Q) :
  (fold_left (fun sum u => sum + utxoAmount u) l a ==
   a + fold_left (fun sum u => sum + utxoAmount u) l 0)%Q.
Proof.
  revert a. induction l as [|x l IH]; intros a; simpl.
  - symmetry. apply Qplus_0_r.
  - rewrite IH. rewrite (IH (0 + utxoAmount x)%Q). ring.
Qed.



End BtcNodeMore.
